(** * Aware Citizen (main.py): a shallow embedding and its verified properties

    The program scrapes a list of political parties for a country from a
    wiki page, asks a text-generation service for an analysis of each party,
    mines a 0..20 score out of each reply with a regular expression, and
    renders texts and a bar chart with Streamlit.

    Conventions of the embedding.
    - A Python [str] is a [string]: the sequence of its characters, a
      character outside ASCII standing as its UTF-8 bytes.  Where the
      program looks at characters one by one (the regular expression), the
      str is read as its code points ([codepoints]); the digits are the
      decimal digits of Unicode and the case folding is that of [re].
    - A Python [dict] whose iteration order is observed is an association
      list in insertion order ([Dict]); a dict that is only looked up is a
      [gmap].
    - Code that may raise returns a [result]; code that talks to the outside
      (HTTP, the generation service, the Streamlit page) runs in the monad
      [M] that threads the outside world and the page. *)

From Stdlib Require Import ZArith Ascii.
From stdpp Require Import gmap strings list pretty.

Local Open Scope Z_scope.

(** ** Characters and texts *)

Abbreviation text := (list ascii).

Definition chars (s : string) : text := String.list_ascii_of_string s.
Definition str (t : text) : string := String.string_of_list_ascii t.

(** [c.lower()] on one character of ASCII; the bytes of another character
    are left as they are. *)
Definition lower (c : ascii) : ascii :=
  let n := N_of_ascii c in
  if ((65 <=? n) && (n <=? 90))%N then ascii_of_N (n + 32) else c.

Global Arguments lower : simpl never.

(** *** Code points *)

Abbreviation codes := (list N).

Definition continuation (b : N) : bool := ((128 <=? b) && (b <? 192))%N.

(** UTF-8, read back.  A byte that is no part of a well-formed sequence
    stands for itself (no str is written that way). *)
Fixpoint decode (s : list N) : codes :=
  match s with
  | [] => []
  | b0 :: r =>
      if (b0 <? 128)%N then b0 :: decode r
      else
        match r with
        | b1 :: r1 =>
            if ((192 <=? b0) && (b0 <? 224))%N && continuation b1
            then ((b0 - 192) * 64 + (b1 - 128))%N :: decode r1
            else
              match r1 with
              | b2 :: r2 =>
                  if ((224 <=? b0) && (b0 <? 240))%N
                     && continuation b1 && continuation b2
                  then ((b0 - 224) * 4096 + (b1 - 128) * 64 + (b2 - 128))%N
                       :: decode r2
                  else
                    match r2 with
                    | b3 :: r3 =>
                        if ((240 <=? b0) && (b0 <? 248))%N
                           && continuation b1 && continuation b2
                           && continuation b3
                        then ((b0 - 240) * 262144 + (b1 - 128) * 4096
                              + (b2 - 128) * 64 + (b3 - 128))%N :: decode r3
                        else b0 :: decode r
                    | [] => b0 :: decode r
                    end
              | [] => b0 :: decode r
              end
        | [] => [b0]
        end
  end.

(** The characters of a str. *)
Definition codepoints (s : string) : codes := decode (N_of_ascii <$> chars s).

Definition LF : N := 10%N.

(** The decimal digits of Unicode (category Nd) come in runs of ten, from
    the digit zero to the digit nine of a script: these are the zeros
    (Unicode 14.0, the table of Python 3.11). *)
Definition decimal_zeros : list N :=
  [0x30; 0x660; 0x6f0; 0x7c0; 0x966; 0x9e6; 0xa66; 0xae6; 0xb66; 0xbe6;
   0xc66; 0xce6; 0xd66; 0xde6; 0xe50; 0xed0; 0xf20; 0x1040; 0x1090; 0x17e0;
   0x1810; 0x1946; 0x19d0; 0x1a80; 0x1a90; 0x1b50; 0x1bb0; 0x1c40; 0x1c50;
   0xa620; 0xa8d0; 0xa900; 0xa9d0; 0xa9f0; 0xaa50; 0xabf0; 0xff10; 0x104a0;
   0x10d30; 0x11066; 0x110f0; 0x11136; 0x111d0; 0x112f0; 0x11450; 0x114d0;
   0x11650; 0x116c0; 0x11730; 0x118e0; 0x11950; 0x11c50; 0x11d50; 0x11da0;
   0x16a60; 0x16ac0; 0x16b50; 0x1d7ce; 0x1d7d8; 0x1d7e2; 0x1d7ec; 0x1d7f6;
   0x1e140; 0x1e2f0; 0x1e950; 0x1fbf0]%N.

(** The value of a decimal digit, [None] for any other character. *)
Definition digit_value (c : N) : option Z :=
  (fun zero => Z.of_N (c - zero)) <$>
  List.find (fun zero => ((zero <=? c) && (c <? zero + 10))%N) decimal_zeros.

(** [\d], and what [int] reads as a digit. *)
Definition is_digit (c : N) : bool := bool_decide (is_Some (digit_value c)).

Global Arguments digit_value : simpl never.
Global Arguments is_digit : simpl never.

(** ** Exceptions and results *)

Inductive exn :=
| NameError (name : string)
| KeyError (key : string)
| ValueError (literal : string)
| IndexError (what : string)
| TypeError (what : string)
| ServiceError (what : string).   (* raised inside requests or openai *)

Inductive result (A : Type) :=
| Return (a : A)
| Raise (e : exn).
Arguments Return {A} a.
Arguments Raise {A} e.

(** ** The regular expressions of [re], as far as the program uses them *)

Module Re.

(** One-character matchers. *)
Inductive charclass :=
| LITERAL (c : ascii)      (* a character of ASCII, itself *)
| ANY                      (* [.]  : any character but a line feed *)
| CATEGORY_DIGIT.          (* [\d] *)

(** A pattern is a sequence of these; [MARK] records the position where a
    group opens (even index) or closes (odd index). *)
Inductive op :=
| ONE (c : charclass)
| MIN_REPEAT (lo : nat) (hi : option nat) (c : charclass)   (* c{lo,hi}? *)
| MAX_REPEAT (lo : nat) (hi : option nat) (c : charclass)   (* c{lo,hi}  *)
| MARK (i : nat).

Definition pattern := list op.

(** Positions recorded by the [MARK]s of a successful match. *)
Abbreviation marks := (gmap nat nat).

(** The characters a literal matches under [re.IGNORECASE]: a letter of
    ASCII matches its two cases and the characters of Unicode that fold to
    it (dotted and dotless i, long s, the Kelvin sign); any other character
    of ASCII matches itself.  The literals of the program's pattern are
    letters of ASCII; a literal above 127 stands for itself here. *)
Definition ignorecase_variants (c : ascii) : list N :=
  let n := N_of_ascii c in
  let lo := if ((65 <=? n) && (n <=? 90))%N then (n + 32)%N else n in
  if ((97 <=? lo) && (lo <=? 122))%N then
    [lo; (lo - 32)%N] ++
    (if (lo =? 105)%N then [0x130; 0x131]
     else if (lo =? 115)%N then [0x17f]
     else if (lo =? 107)%N then [0x212a]
     else [])%N
  else [n].

Definition in_class (ignorecase : bool) (c : charclass) (x : N) : bool :=
  match c with
  | LITERAL l =>
      if ignorecase then bool_decide (x ∈ ignorecase_variants l)
      else bool_decide (x = N_of_ascii l)
  | ANY => negb (bool_decide (x = LF))
  | CATEGORY_DIGIT => is_digit x
  end.

Global Arguments ignorecase_variants : simpl never.

Global Arguments in_class : simpl never.

Definition below (hi : option nat) (n : nat) : bool :=
  match hi with
  | Some h => bool_decide (n < h)%nat
  | None => true
  end.

(** The two repeats, for a continuation [k] that matches the rest of the
    pattern; [n] counts the characters taken so far.  Alternatives are tried
    in the order of [re]: a lazy repeat tries the rest of the pattern before
    one more character, a greedy repeat after. *)
Fixpoint min_repeat (ic : bool) (lo : nat) (hi : option nat) (c : charclass)
    (k : codes → nat → marks → option marks)
    (n : nat) (s : codes) (pos : nat) (m : marks) {struct s} : option marks :=
  let more :=
    match s with
    | x :: s' =>
        if below hi n && in_class ic c x
        then min_repeat ic lo hi c k (S n) s' (S pos) m
        else None
    | [] => None
    end in
  if bool_decide (lo ≤ n)%nat then
    match k s pos m with
    | Some r => Some r
    | None => more
    end
  else more.

Fixpoint max_repeat (ic : bool) (lo : nat) (hi : option nat) (c : charclass)
    (k : codes → nat → marks → option marks)
    (n : nat) (s : codes) (pos : nat) (m : marks) {struct s} : option marks :=
  let stop := if bool_decide (lo ≤ n)%nat then k s pos m else None in
  match s with
  | x :: s' =>
      if below hi n && in_class ic c x then
        match max_repeat ic lo hi c k (S n) s' (S pos) m with
        | Some r => Some r
        | None => stop
        end
      else stop
  | [] => stop
  end.

(** [sre_match ic p s pos m]: match [p] by backtracking against [s], the part
    of the text that starts at position [pos]; [m] holds the marks set so
    far. *)
Fixpoint sre_match (ic : bool) (p : pattern)
    : codes → nat → marks → option marks :=
  match p with
  | [] => fun _ _ m => Some m
  | ONE c :: p' => fun s pos m =>
      match s with
      | x :: s' => if in_class ic c x then sre_match ic p' s' (S pos) m else None
      | [] => None
      end
  | MARK i :: p' => fun s pos m => sre_match ic p' s pos (<[i := pos]> m)
  | MIN_REPEAT lo hi c :: p' => min_repeat ic lo hi c (sre_match ic p') 0
  | MAX_REPEAT lo hi c :: p' => max_repeat ic lo hi c (sre_match ic p') 0
  end.

(** [re.search]: the first position, from the left, where the pattern
    matches. *)
Fixpoint search_from (ic : bool) (p : pattern) (s : codes) (pos : nat)
    : option marks :=
  match sre_match ic p s pos ∅ with
  | Some m => Some m
  | None =>
      match s with
      | [] => None
      | _ :: s' => search_from ic p s' (S pos)
      end
  end.

Definition search (ic : bool) (p : pattern) (content : codes) : option marks :=
  search_from ic p content 0%nat.

(** [m.group(g)] for [g ≥ 1]: the slice of the text between the two marks
    of group [g]. *)
Definition group (content : codes) (m : marks) (g : nat) : option codes :=
  b ← m !! (2 * g - 2)%nat;
  e ← m !! (2 * g - 1)%nat;
  Some (take (e - b) (drop b content)).

End Re.

(** ** Score extraction (the end of the loop body of [evaluate_parties]) *)

(** [r"score.*?(\d{1,2})"] *)
Definition score_pattern : Re.pattern :=
  [Re.ONE (Re.LITERAL "s"); Re.ONE (Re.LITERAL "c"); Re.ONE (Re.LITERAL "o");
   Re.ONE (Re.LITERAL "r"); Re.ONE (Re.LITERAL "e");
   Re.MIN_REPEAT 0 None Re.ANY;
   Re.MARK 0; Re.MAX_REPEAT 1 (Some 2%nat) Re.CATEGORY_DIGIT; Re.MARK 1].

Definition IGNORECASE : bool := true.

(** [int(s)] on a string of decimal digits, of whatever script; any other
    string is a [ValueError] here (a sign, blanks or underscores, which
    [int] would also read, are not digits and so never part of text matched
    by [\d]). *)
Definition int_digits (t : codes) : option Z :=
  foldl (fun acc c => a ← acc; d ← digit_value c; Some (10 * a + d)) (Some 0) t.

Definition int (t : codes) : result Z :=
  match t with
  | [] => Raise (ValueError "invalid literal for int()")
  | _ => match int_digits t with
         | Some n => Return n
         | None => Raise (ValueError "invalid literal for int()")
         end
  end.

(** Lines 75-80: the value stored in [party_scores[party]]. *)
Definition extract_score (content : string) : result (option Z) :=
  match Re.search IGNORECASE score_pattern (codepoints content) with
  | Some score_match =>
      match Re.group (codepoints content) score_match 1 with
      | Some g =>
          match int g with
          | Return score => Return (Some (Z.min (Z.max score 0) 20))
          | Raise e => Raise e
          end
      | None => Raise (IndexError "no such group")
      end
  | None => Return None
  end.



(** ** Python dicts whose order is observed *)

Module Dict.

(** The items of the dict, in insertion order; the keys are distinct. *)
Definition t (V : Type) : Type := list (string * V).

Definition empty {V} : t V := [].

(** [d[k] = v]: a key already there keeps its place and gets the new value, a
    new key goes to the end. *)
Fixpoint set {V} (k : string) (v : V) (d : t V) : t V :=
  match d with
  | [] => [(k, v)]
  | (k', v') :: d' =>
      if bool_decide (k' = k) then (k', v) :: d' else (k', v') :: set k v d'
  end.

Fixpoint get {V} (k : string) (d : t V) : option V :=
  match d with
  | [] => None
  | (k', v') :: d' => if bool_decide (k' = k) then Some v' else get k d'
  end.

Definition items {V} (d : t V) : list (string * V) := d.
Definition keys {V} (d : t V) : list string := d.*1.
Definition values {V} (d : t V) : list V := d.*2.

End Dict.

(** ** Strings *)

(** [s.replace(old, new)] for one-character [old] and [new]. *)
Definition replace (old new : ascii) (s : string) : string :=
  str ((fun c => if bool_decide (c = old) then new else c) <$> chars s).

(** [s.lower()] *)
Definition str_lower (s : string) : string := str (lower <$> chars s).

(** [needle in hay] *)
Fixpoint is_prefix (p s : text) : bool :=
  match p, s with
  | [], _ => true
  | a :: p', b :: s' => bool_decide (a = b) && is_prefix p' s'
  | _ :: _, [] => false
  end.

Fixpoint contains (needle hay : text) : bool :=
  is_prefix needle hay ||
  match hay with
  | [] => false
  | _ :: hay' => contains needle hay'
  end.

Definition str_in (needle hay : string) : bool := contains (chars needle) (chars hay).

(** ** The page markup, as BeautifulSoup holds it *)

#[warnings="-register-all"]
Inductive node :=
| Tag (name : string) (attrs : gmap string string) (children : list node)
| NavigableString (s : string).

(** [tag.get(key)] *)
Definition tag_get (n : node) (key : string) : option string :=
  match n with
  | Tag _ attrs _ => attrs !! key
  | NavigableString _ => None
  end.

(** [select] for a selector made of tag names joined by the descendant
    combinator: [pending] lists the names still to be met on the way down,
    the last of them being the name of the elements selected.  The result is
    in document order. *)
Fixpoint select_node (pending : list string) (n : node) : list node :=
  match n with
  | NavigableString _ => []
  | Tag name _ children =>
      match pending with
      | [] => []
      | [last] =>
          (if bool_decide (name = last) then [n] else []) ++
          flat_map (select_node pending) children
      | outer :: inner =>
          flat_map
            (select_node (if bool_decide (name = outer) then inner else pending))
            children
      end
  end.

Definition select (selector : list string) (soup : list node) : list node :=
  flat_map (select_node selector) soup.

(** ** The scraper *)

Definition country_map : gmap string string :=
  {[ "United States" := "the_United_States";
     "United Kingdom" := "the_United_Kingdom";
     "Philippines" := "the_Philippines" ]}.

(** Lines 37-38. *)
Definition wiki_url (country : string) : string :=
  let wiki_country := default country (country_map !! country) in
  "https://en.wikipedia.org/wiki/List_of_political_parties_in_"
    +:+ replace " " "_" wiki_country.

(** Line 45: [li.get('title') and 'party' in li.get('title').lower()]. *)
Definition is_party_link (li : node) : bool :=
  match tag_get li "title" with
  | Some title => negb (bool_decide (title = "")) && str_in "party" (str_lower title)
  | None => false
  end.

(** Lines 43-46: the loop that fills [party_names]. *)
Definition party_names (soup : list node) : list string :=
  omap (fun li => if is_party_link li then tag_get li "title" else None)
       (select ["ul"; "li"; "a"] soup).

(** ** The Streamlit page and the figure drawn on it *)

Record figure := Figure {
  bars : list (string * Z);         (* [ax.bar(x, height)] *)
  ylim : Z * Z;
  ylabel : string;
  fig_title : string;
  xticklabels : list string;
  rotation : Z;
  ha : string
}.

Inductive element :=
| Image (src : string) (width : option Z) (caption : option string)
        (use_container_width : bool)
| Title (body : string)
| Markdown (body : string)
| TextInput (label value : string)
| Button (label : string)
| Spinner (label : string)
| Success (body : string)
| Warning (body : string)
| Write (value : list string)
| Header (body : string)
| Subheader (body : string)
| Pyplot (fig : figure).

(** [requests.Response], as far as the program reads it. *)
Record response := Response {
  status_code : Z;
  content : string
}.

Definition SYSTEM_PROMPT : string := "
You are an unbiased political and economic analyst. Your tasks:
1. Identify top political parties and their current campaign promises.
2. Evaluate their historical reliability.
3. Predict living conditions for an average citizen if each party wins.
4. Assign a satisfaction score (0–20) with source-based explanation.
".

(** Lines 56-62. *)
Definition prompt (party country : string) : string :=
  "
        Analyze the political party '" +:+ party +:+ "' in " +:+ country +:+ ":
        - Current promises
        - Past performance
        - Predict living conditions impact (salary, cost of living, happiness index)
        - Give a score (0–20) and justify with real sources if available
        ".

(** Lines 66-69. *)
Definition messages (party country : string) : list (string * string) :=
  [("system", SYSTEM_PROMPT); ("user", prompt party country)].

Section Program.

(** The world outside the program, and the calls that reach it.  Each call
    may raise, and may change the world. *)
Context {W : Type}.

(** [requests.get(url)] *)
Variable requests_get : string → W → result response * W.

(** [BeautifulSoup(markup, 'html.parser')]: the top-level nodes. *)
Variable BeautifulSoup : string → list node.

(** [client.chat.completions.create(model=..., messages=...)]: the
    [message.content] of each of [response.choices], [None] for a choice
    without text. *)
Variable chat_completions_create :
  string → list (string * string) → W → result (list (option string)) * W.

(** [pycountry.countries]: the name and the alpha-2 code of each. *)
Variable countries : list (string * string).

(** Lines 127-133 on the side of matplotlib: the figure is made, filled and
    laid out ([plt.subplots()] to [plt.tight_layout()]).  This may raise: a
    label that matplotlib reads as bad mathtext makes [tight_layout] raise a
    [ValueError]. *)
Variable matplotlib_layout : figure → W → result unit * W.

Record state := State {
  world : W;
  page : list element    (* what Streamlit was told to show, in order *)
}.

Definition M (A : Type) : Type := state → result A * state.

#[global] Instance M_ret : MRet M := fun A a st => (Return a, st).

#[global] Instance M_bind : MBind M := fun A B f c st =>
  match c st with
  | (Return a, st') => f a st'
  | (Raise e, st') => (Raise e, st')
  end.

Definition lift {A} (r : result A) : M A := fun st => (r, st).

(** A call to the outside. *)
Definition call {A} (f : W → result A * W) : M A := fun st =>
  let '(r, w) := f (world st) in (r, State w (page st)).

(** A call to Streamlit that shows something. *)
Definition show (e : element) : M unit := fun st =>
  (Return (), State (world st) (page st ++ [e])).

(** [with st.spinner(label): body] *)
Definition spinner {A} (label : string) (body : M A) : M A :=
  show (Spinner label);; body.

(** Lines 30-48. *)
Definition scrape_party_info (country : string) : M (list string) :=
  let url := wiki_url country in
  response ← call (requests_get url);
  let soup := BeautifulSoup (content response) in
  mret (take 5 (party_names soup)).

(** Line 72: [response.choices[0].message.content]; a content that is [None]
    makes [re.search] raise at line 75 (the entry of [party_analysis] written
    in between is lost with the dict). *)
Definition first_content (choices : list (option string)) : result string :=
  match choices with
  | [] => Raise (IndexError "list index out of range")
  | None :: _ => Raise (TypeError "expected string or bytes-like object")
  | Some content :: _ => Return content
  end.

(** Lines 55-80: the loop, from dicts filled so far. *)
Fixpoint evaluate_loop (parties : list string) (country : string)
    (party_analysis : Dict.t string) (party_scores : Dict.t (option Z))
    : M (Dict.t string * Dict.t (option Z)) :=
  match parties with
  | [] => mret (party_analysis, party_scores)
  | party :: parties' =>
      response ← call (chat_completions_create "gpt-4-turbo" (messages party country));
      content ← lift (first_content response);
      let party_analysis := Dict.set party content party_analysis in
      score ← lift (extract_score content);
      let party_scores := Dict.set party score party_scores in
      evaluate_loop parties' country party_analysis party_scores
  end.

(** Lines 51-82. *)
Definition evaluate_parties (parties : list string) (country : string)
    : M (Dict.t string * Dict.t (option Z)) :=
  evaluate_loop parties country Dict.empty Dict.empty.

(** Lines 87-90. *)
Definition flag_urls : gmap string string :=
  foldl (fun d '(name, alpha_2) =>
           <[name := "https://flagcdn.com/w320/" +:+ str_lower alpha_2 +:+ ".png"]> d)
        ∅ countries.

(** Line 123. *)
Definition valid_scores (scores : Dict.t (option Z)) : Dict.t Z :=
  omap (fun '(k, v) => (fun s => (k, s)) <$> v) (Dict.items scores).

(** Lines 127-133. *)
Definition score_figure (valid : Dict.t Z) : figure :=
  {| bars := zip (Dict.keys valid) (Dict.values valid);
     ylim := (0, 20);
     ylabel := "Satisfaction Score (0–20)";
     fig_title := "Predicted Impact of Parties on Living Conditions";
     xticklabels := Dict.keys valid;
     rotation := 45;
     ha := "right" |}.

(** Lines 122-136. *)
Definition show_scores (scores : Dict.t (option Z)) : M unit :=
  show (Header "📊 Satisfaction Score Comparison");;
  let valid := valid_scores scores in
  match valid with
  | _ :: _ =>
      let fig := score_figure valid in
      call (matplotlib_layout fig);;
      show (Pyplot fig)
  | [] => show (Warning "No valid scores found to visualize.")
  end.

(** Lines 117-120. *)
Fixpoint show_results (items : list (string * string)) : M unit :=
  match items with
  | [] => mret ()
  | (party, analysis) :: items' =>
      show (Subheader party);; show (Markdown analysis);; show_results items'
  end.

(** Lines 111-136: what follows the scrape. *)
Definition report (parties : list string) (country : string) : M unit :=
  show (Success ("Found " +:+ pretty (length parties) +:+ " political parties."));;
  show (Write parties);;
  '(results, scores) ← spinner "Evaluating each party using AI..."
                         (evaluate_parties parties country);
  show (Header "🔍 Results");;
  show_results (Dict.items results);;
  show_scores scores.

(** Lines 108-136: the body of [if st.button("Analyze")]. *)
Definition analyze (country : string) : M unit :=
  parties ← spinner "Scraping party data..." (scrape_party_info country);
  report parties country.

(** Lines 92-136.  [country] is what the text input holds and [clicked]
    what the button returns. *)
Definition main (country : string) (clicked : bool) : M unit :=
  show (Image "images/image.png" None None true);;
  show (Title "🙋🏻‍♀️💡 Aware Citizen: Political Economy Analysis");;
  show (Markdown "Choose your country to analyze political party promises and predicted impacts on daily life.");;
  show (Markdown "💭 This system uses AI to evaluate political parties based on their promises and historical performance.");;
  show (Markdown "🚨 Disclaimer: This system is LLM-Based. Please note that the results may be incorrect due to the Open AI model's hallucinations! Thank you for your understanding! 🙏🏻");;
  show (Markdown "❗️ Attention: Please enter the full name of the country with no space!");;
  show (TextInput "🔍 Enter Country Name:" country);;
  match flag_urls !! country with
  | Some url => show (Image url (Some 100) (Some (country +:+ " Flag")) false)
  | None => show (Warning "Flag not available for this country.")
  end;;
  show (Button "Analyze");;
  if clicked then analyze country else mret ().

End Program.

Arguments state W : clear implicits.
Arguments M W A : clear implicits.

(** ** Module initialisation *)

Module Init.

(** What the process finds when it starts. *)
Record environment := Environment {
  secrets : gmap string string;     (* [st.secrets] *)
  environ : gmap string string      (* [os.environ] *)
}.

Inductive value :=
| Module (name : string)                 (* [import name] *)
| Member (module name : string)          (* [from module import name] *)
| Builtin (name : string)
| Str (s : string)
| NoneValue
| Client (api_key : value).              (* [OpenAI(api_key=...)] *)

(** The global names of the module. *)
Abbreviation namespace := (gmap string value).

Definition I (A : Type) : Type := namespace → result A * namespace.

#[global] Instance I_ret : MRet I := fun A a ns => (Return a, ns).

#[global] Instance I_bind : MBind I := fun A B f c ns =>
  match c ns with
  | (Return a, ns') => f a ns'
  | (Raise e, ns') => (Raise e, ns')
  end.

Definition raise {A} (e : exn) : I A := fun ns => (Raise e, ns).

(** [import module as name], [from module import name]: the packages are
    taken to be installed. *)
Definition import_as (module name : string) : I unit := fun ns =>
  (Return (), <[name := Module module]> ns).

Definition from_import (module name : string) : I unit := fun ns =>
  (Return (), <[name := Member module name]> ns).

(** [name = v] at the top level. *)
Definition store (name : string) (v : value) : I unit := fun ns =>
  (Return (), <[name := v]> ns).

Section Body.

(** The names of the [builtins] module. *)
Variable builtins : gset string.

Variable env : environment.

(** What the module does after line 16: it defines the functions and, run
    as a script, calls [main]. *)
Variable rest : I unit.

(** Reading a name at the top level: the globals, then the builtins. *)
Definition load (name : string) : I value := fun ns =>
  match ns !! name with
  | Some v => (Return v, ns)
  | None =>
      if bool_decide (name ∈ builtins) then (Return (Builtin name), ns)
      else (Raise (NameError name), ns)
  end.

(** [st.secrets[key]]: it raises when the store has no such key (a
    [KeyError]; with no secrets file at all Streamlit raises an error of its
    own, which is no [NameError] either). *)
Definition secrets_getitem (key : string) : I value :=
  match secrets env !! key with
  | Some v => mret (Str v)
  | None => raise (KeyError key)
  end.

(** [os.getenv(key)] *)
Definition os_getenv (key : string) : I value :=
  mret (from_option Str NoneValue (environ env !! key)).

(** The module body, statement by statement down to line 16. *)
Definition module_body : I unit :=
  import_as "requests" "requests";;
  from_import "bs4" "BeautifulSoup";;
  import_as "pandas" "pd";;
  import_as "json" "json";;
  import_as "streamlit" "st";;
  import_as "matplotlib.pyplot" "plt";;
  import_as "re" "re";;
  from_import "openai" "OpenAI";;
  (* 14 *)
  load "st";;
  key ← secrets_getitem "OPENAI_API_KEY";
  store "OPENAI_API_KEY" key;;
  (* 15 *)
  load "os";;
  key ← os_getenv "OPENAI_API_KEY";
  store "OPENAI_API_KEY" key;;
  (* 16 *)
  load "OpenAI";;
  key ← load "OPENAI_API_KEY";
  store "client" (Client key);;
  (* 18-139 *)
  rest.

Definition run : result unit * namespace := module_body ∅.

End Body.

End Init.

(** * Specification *)

(** ** The score pattern, read as a scan of the text *)

(** The literal prefix of a pattern: [strip ic w s] removes from the front of
    [s] a word equal to [w] (up to case when [ic]). *)
Fixpoint strip (ic : bool) (w : text) (s : codes) : option codes :=
  match w, s with
  | [], _ => Some s
  | l :: w', x :: s' =>
      if Re.in_class ic (Re.LITERAL l) x then strip ic w' s' else None
  | _ :: _, [] => None
  end.

Definition lits (w : text) : Re.pattern := (fun c => Re.ONE (Re.LITERAL c)) <$> w.

(** [\d{1,2}] at the front of [s]: one digit, and the next character too when
    it is a digit. *)
Definition leading_digits (s : codes) : option codes :=
  match s with
  | d1 :: r =>
      if is_digit d1 then
        Some (d1 :: match r with
                    | d2 :: _ => if is_digit d2 then [d2] else []
                    | [] => []
                    end)
      else None
  | [] => None
  end.

(** [.*?(\d{1,2})] at the front of [s]: the number of characters skipped and
    the digits found. *)
Fixpoint lazy_scan (s : codes) : option (nat * codes) :=
  match leading_digits s with
  | Some g => Some (0%nat, g)
  | None =>
      match s with
      | x :: s' =>
          if bool_decide (x = LF) then None
          else '(k, g) ← lazy_scan s'; Some (S k, g)
      | [] => None
      end
  end.

(** The whole pattern at the front of [s]. *)
Definition match_here (s : codes) : option (nat * codes) :=
  s' ← strip IGNORECASE (chars "score") s; lazy_scan s'.

Definition group_marks (b : nat) (g : codes) (m : Re.marks) : Re.marks :=
  <[1%nat := (b + length g)%nat]> (<[0%nat := b]> m).

(** ** The vocabulary of the specification *)

(** [t] is the word [w] up to the case of its letters (of ASCII; the lister
    looks for "party" in the lower-case form of a title). *)
Definition same_word (w : string) (t : text) : Prop :=
  lower <$> t = lower <$> chars w.

(** [w] occurs in the text, whatever the case of its letters. *)
Definition occurs (w : string) (content : text) : Prop :=
  ∃ pre t post, content = pre ++ t ++ post ∧ same_word w t.

(** [t] is the word [w] up to case as [re.IGNORECASE] has it: character by
    character, a case variant of the letter of [w]. *)
Definition word_ci (w : string) (t : codes) : Prop :=
  Forall2 (fun x l => x ∈ Re.ignorecase_variants l) t (chars w).

(** [w] occurs in the text, up to case as [re.IGNORECASE] has it. *)
Definition occurs_ci (w : string) (content : codes) : Prop :=
  ∃ pre t post, content = pre ++ t ++ post ∧ word_ci w t.

(** The digits [\d{1,2}] takes when [post] follows them: two digits, or one
    digit that no digit follows. *)
Definition digit_run (g post : codes) : Prop :=
  (∃ d1, g = [d1] ∧ is_digit d1 = true ∧
         match post with d2 :: _ => is_digit d2 = false | [] => True end) ∨
  (∃ d1 d2, g = [d1; d2] ∧ is_digit d1 = true ∧ is_digit d2 = true).

(** The text [s] begins with the word "score", in any case, and a digit
    follows it before the line ends. *)
Definition score_line (s : codes) : Prop :=
  ∃ t mid d post,
    s = t ++ mid ++ d :: post ∧ word_ci "score" t ∧
    Forall (fun x => x ≠ LF) mid ∧ is_digit d = true.

(** The wording of the specification: the word "score", then any characters
    at all, then a digit. *)
Definition score_then_digit (content : codes) : Prop :=
  ∃ pre t mid d post,
    content = pre ++ t ++ mid ++ d :: post ∧ word_ci "score" t ∧
    is_digit d = true.

(** The match [re.search] returns: the leftmost "score" that a digit follows
    on its line, with the first such digit, and the one after it if that is
    a digit too, as group 1. *)
Definition score_match (content g : codes) : Prop :=
  ∃ pre t mid post,
    content = pre ++ t ++ mid ++ g ++ post ∧
    word_ci "score" t ∧
    Forall (fun x => x ≠ LF ∧ is_digit x = false) mid ∧
    digit_run g post ∧
    ∀ i, (i < length pre)%nat → ¬ score_line (drop i content).

(** [re.search] with the score pattern, as one scan of the text: the start of
    the match, the number of characters [.*?] takes, and group 1. *)
Fixpoint first_match (s : codes) : option (nat * nat * codes) :=
  match match_here s with
  | Some (k, g) => Some (0%nat, k, g)
  | None =>
      match s with
      | [] => None
      | _ :: s' => '(i, k, g) ← first_match s'; Some (S i, k, g)
      end
  end.

(** ** Sample worlds *)

(** A generation service that plays a script: the world is the number of
    calls made so far, and call number [n] gets the [n]-th reply. *)
Definition scripted_chat (replies : list (result (list (option string))))
    (model : string) (msgs : list (string * string)) (n : nat)
    : result (list (option string)) * nat :=
  (default (Raise (ServiceError "no reply left")) (replies !! n), S n).

(** A matplotlib that lays out whatever figure it is given. *)
Definition laid_out {W} (fig : figure) (w : W) : result unit * W :=
  (Return (), w).

(** A matplotlib that cannot lay the figure out: it raises, as
    [plt.tight_layout()] does on a label that it reads as mathtext and cannot
    parse. *)
Definition bad_mathtext {W} (fig : figure) (w : W) : result unit * W :=
  (Raise (ValueError "ParseFatalException"), w).

(** ** The page *)

(** What [main] shows before it looks at the button: lines 93-107. *)
Definition front_page (countries : list (string * string)) (country : string)
    : list element :=
  [Image "images/image.png" None None true;
   Title "🙋🏻‍♀️💡 Aware Citizen: Political Economy Analysis";
   Markdown "Choose your country to analyze political party promises and predicted impacts on daily life.";
   Markdown "💭 This system uses AI to evaluate political parties based on their promises and historical performance.";
   Markdown "🚨 Disclaimer: This system is LLM-Based. Please note that the results may be incorrect due to the Open AI model's hallucinations! Thank you for your understanding! 🙏🏻";
   Markdown "❗️ Attention: Please enter the full name of the country with no space!";
   TextInput "🔍 Enter Country Name:" country;
   match flag_urls countries !! country with
   | Some url => Image url (Some 100) (Some (country +:+ " Flag")) false
   | None => Warning "Flag not available for this country."
   end;
   Button "Analyze"].

(** A page with one party link in a list, and the tree html.parser builds
    from it. *)
Definition sample_markup : string :=
  "<ul><li><a title='Pirate Party'>Pirates</a></li></ul>".

Definition sample_soup : list node :=
  [Tag "ul" ∅
     [Tag "li" ∅
        [Tag "a" {[ "title" := "Pirate Party" ]} [NavigableString "Pirates"]]]].

Definition sample_parser (markup : string) : list node :=
  if bool_decide (markup = sample_markup) then sample_soup else [].

(** A server that answers every request with this status and this body. *)
Definition serve (status : Z) (body : string) (url : string) (w : nat)
    : result response * nat :=
  (Return (Response status body), w).


(** ** The markup *)

Definition tag_name (n : node) : option string :=
  match n with
  | Tag name _ _ => Some name
  | NavigableString _ => None
  end.

(** The elements below and including [n], in document order, each with the
    names of its ancestors, the nearest first. *)
Fixpoint descendants (ancestors : list string) (n : node)
    : list (list string * node) :=
  match n with
  | NavigableString _ => []
  | Tag name _ children =>
      (ancestors, n) :: flat_map (descendants (name :: ancestors)) children
  end.

Definition elements (soup : list node) : list (list string * node) :=
  flat_map (descendants []) soup.

(** Some ancestor is a list item that has itself an unordered list among
    its ancestors. *)
Definition in_ul_li (ancestors : list string) : Prop :=
  ∃ l1 l2 l3, ancestors = l1 ++ "li" :: l2 ++ "ul" :: l3.

(** The anchors the lister keeps, with the title it keeps of each. *)
Definition qualifies (ancestors : list string) (n : node) (title : string) : Prop :=
  tag_name n = Some "a" ∧ in_ul_li ancestors ∧
  tag_get n "title" = Some title ∧ occurs "party" (chars title).



(** The same, as tests. *)
Fixpoint li_under_ul (ancestors : list string) : bool :=
  match ancestors with
  | [] => false
  | t :: r => bool_decide (t = "li") && bool_decide ("ul" ∈ r) || li_under_ul r
  end.

Definition kept_title (ancestors : list string) (n : node) : option string :=
  if bool_decide (tag_name n = Some "a") && li_under_ul ancestors && is_party_link n
  then tag_get n "title" else None.

(** What is still to be met of the selector [ul li a] below these
    ancestors. *)
Definition pending_for (ancestors : list string) : list string :=
  if li_under_ul ancestors then ["a"]
  else if bool_decide ("ul" ∈ ancestors) then ["li"; "a"]
  else ["ul"; "li"; "a"].


(** ** More vocabulary *)

(** A character with its capital letter of ASCII, if it is one, made
    small. *)
Definition ascii_fold (c : N) : N :=
  if ((65 <=? c) && (c <=? 90))%N then (c + 32)%N else c.

(** Two texts that differ in the case of letters of ASCII only. *)
Definition same_up_to_case (s t : codes) : Prop :=
  ascii_fold <$> s = ascii_fold <$> t.

(** [f"https://flagcdn.com/w320/{country.alpha_2.lower()}.png"] *)
Definition flag_url (alpha_2 : string) : string :=
  "https://flagcdn.com/w320/" +:+ str_lower alpha_2 +:+ ".png".

(** The page after the scrape, before the evaluation: lines 111-114. *)
Definition found_page (parties : list string) : list element :=
  [Success ("Found " +:+ pretty (length parties) +:+ " political parties.");
   Write parties;
   Spinner "Evaluating each party using AI..."].

(** The results as the page lists them: lines 118-120. *)
Definition results_page (results : Dict.t string) : list element :=
  flat_map (fun '(party, analysis) => [Subheader party; Markdown analysis])
           (Dict.items results).

(** The global names once the imports of lines 3-10 are done. *)
Definition imported_names : gmap string Init.value :=
  <["OpenAI" := Init.Member "openai" "OpenAI"]>
    (<["re" := Init.Module "re"]>
       (<["plt" := Init.Module "matplotlib.pyplot"]>
          (<["st" := Init.Module "streamlit"]>
             (<["json" := Init.Module "json"]>
                (<["pd" := Init.Module "pandas"]>
                   (<["BeautifulSoup" := Init.Member "bs4" "BeautifulSoup"]>
                      (<["requests" := Init.Module "requests"]> ∅))))))).

(** * Properties *)

(** ** The score pattern *)

Lemma sre_match_lits ic w p s pos m :
  Re.sre_match ic (lits w ++ p) s pos m =
  match strip ic w s with
  | Some s' => Re.sre_match ic p s' (pos + length w)%nat m
  | None => None
  end.
Proof.
  revert s pos. induction w as [|l w IH]; intros s pos; simpl.
  - by replace (pos + 0)%nat with pos by lia.
  - destruct s as [|x s]; [done|].
    destruct (Re.in_class ic (Re.LITERAL l) x); [|done].
    rewrite IH. by replace (S pos + length w)%nat with (pos + S (length w))%nat by lia.
Qed.

Lemma in_class_digit ic x : Re.in_class ic Re.CATEGORY_DIGIT x = is_digit x.
Proof. reflexivity. Qed.

Lemma in_class_any ic x : Re.in_class ic Re.ANY x = negb (bool_decide (x = LF)).
Proof. reflexivity. Qed.

Lemma sre_match_group ic s pos m :
  Re.sre_match ic [Re.MARK 0; Re.MAX_REPEAT 1 (Some 2%nat) Re.CATEGORY_DIGIT; Re.MARK 1]
    s pos m =
  (g ← leading_digits s; Some (group_marks pos g m)).
Proof.
  unfold group_marks.
  destruct s as [|d1 [|d2 r]]; simpl; rewrite ?in_class_digit; [done| |].
  - destruct (is_digit d1); simpl; [|done].
    by replace (pos + 1)%nat with (S pos) by lia.
  - destruct (is_digit d1); simpl; [|done].
    destruct (is_digit d2); simpl.
    + replace (pos + 2)%nat with (S (S pos)) by lia. by destruct r.
    + by replace (pos + 1)%nat with (S pos) by lia.
Qed.

Lemma min_repeat_any ic k n s pos m :
  Re.min_repeat ic 0 None Re.ANY k n s pos m =
  match k s pos m with
  | Some r => Some r
  | None =>
      match s with
      | x :: s' =>
          if bool_decide (x = LF) then None
          else Re.min_repeat ic 0 None Re.ANY k (S n) s' (S pos) m
      | [] => None
      end
  end.
Proof.
  destruct s as [|x s]; simpl; [done|].
  rewrite in_class_any. by destruct (bool_decide (x = LF)).
Qed.

Lemma min_repeat_lazy_scan ic n s pos m :
  Re.min_repeat ic 0 None Re.ANY
    (Re.sre_match ic
       [Re.MARK 0; Re.MAX_REPEAT 1 (Some 2%nat) Re.CATEGORY_DIGIT; Re.MARK 1])
    n s pos m =
  ('(k, g) ← lazy_scan s; Some (group_marks (pos + k) g m)).
Proof.
  revert pos n.
  induction s as [|x s IH]; intros pos n;
    rewrite min_repeat_any, sre_match_group.
  - done.
  - cbn [lazy_scan]. destruct (leading_digits (x :: s)) as [g|]; simpl.
    + by rewrite Nat.add_0_r.
    + destruct (bool_decide (x = LF)); [done|].
      rewrite IH. destruct (lazy_scan s) as [[k g]|]; simpl; [|done].
      unfold group_marks. repeat f_equal; lia.
Qed.

Lemma sre_match_lazy ic s pos m :
  Re.sre_match ic
    [Re.MIN_REPEAT 0 None Re.ANY;
     Re.MARK 0; Re.MAX_REPEAT 1 (Some 2%nat) Re.CATEGORY_DIGIT; Re.MARK 1]
    s pos m =
  ('(k, g) ← lazy_scan s; Some (group_marks (pos + k) g m)).
Proof. apply min_repeat_lazy_scan. Qed.

Lemma score_pattern_lits :
  score_pattern =
  lits (chars "score") ++
    [Re.MIN_REPEAT 0 None Re.ANY;
     Re.MARK 0; Re.MAX_REPEAT 1 (Some 2%nat) Re.CATEGORY_DIGIT; Re.MARK 1].
Proof. reflexivity. Qed.

(** The pattern, tried at one position, computes [match_here]. *)
Lemma sre_match_score s pos :
  Re.sre_match IGNORECASE score_pattern s pos ∅ =
  ('(k, g) ← match_here s; Some (group_marks (pos + 5 + k) g ∅)).
Proof.
  rewrite score_pattern_lits, sre_match_lits. unfold match_here.
  destruct (strip IGNORECASE (chars "score") s) as [s'|]; simpl; [|done].
  apply sre_match_lazy.
Qed.

Lemma strip_spec w s s' :
  strip true w s = Some s' ↔
  ∃ t, s = t ++ s' ∧ Forall2 (fun x l => x ∈ Re.ignorecase_variants l) t w.
Proof.
  revert s. induction w as [|l w IH]; intros s; simpl.
  - split.
    + intros [= ->]. exists []. by split; [|constructor].
    + intros (t & -> & Ht). by inversion Ht.
  - destruct s as [|x s].
    + split; [done|]. intros (t & Hs & Ht). inversion Ht; by simplify_eq/=.
    + unfold Re.in_class. case_bool_decide as Hx.
      * rewrite IH. split.
        -- intros (t & -> & Ht). exists (x :: t). split; [done|].
           by constructor.
        -- intros (t & Hs & Ht).
           inversion Ht as [|y l' t' w' Hy Ht']; simplify_eq/=. by exists t'.
      * split; [done|]. intros (t & Hs & Ht).
        inversion Ht as [|y l' t' w' Hy Ht']; by simplify_eq/=.
Qed.

Lemma leading_digits_spec s g :
  leading_digits s = Some g ↔ ∃ post, s = g ++ post ∧ digit_run g post.
Proof.
  unfold leading_digits, digit_run. split.
  - destruct s as [|d1 [|d2 r]]; [done| |].
    + destruct (is_digit d1) eqn:E1; intros [= <-]. exists []. split; [done|].
      left. by exists d1.
    + destruct (is_digit d1) eqn:E1; [|done].
      destruct (is_digit d2) eqn:E2; intros [= <-].
      * exists r. split; [done|]. right. by exists d1, d2.
      * exists (d2 :: r). split; [done|]. left. by exists d1.
  - intros (post & -> & [(d1 & -> & E1 & Hp)|(d1 & d2 & -> & E1 & E2)]); simpl.
    + rewrite E1. destruct post as [|d2 r]; [done|]. by rewrite Hp.
    + by rewrite E1, E2.
Qed.

Lemma digit_run_head g post :
  digit_run g post → ∃ d r, g = d :: r ∧ is_digit d = true.
Proof. intros [(d1 & -> & ? & _)|(d1 & d2 & -> & ? & _)]; eauto. Qed.

Lemma bind_shift (o : option (nat * codes)) k g :
  ('(k', g') ← o; Some (S k', g')) = Some (k, g) ↔
  ∃ k', k = S k' ∧ o = Some (k', g).
Proof.
  destruct o as [[k' g']|]; simpl.
  - split; [intros [= <- <-]; eauto | intros (? & -> & [= -> ->]); done].
  - split; [done | intros (? & _ & ?); done].
Qed.

Lemma lazy_scan_spec s k g :
  lazy_scan s = Some (k, g) ↔
  ∃ mid post,
    s = mid ++ g ++ post ∧ length mid = k ∧
    Forall (fun x => x ≠ LF ∧ is_digit x = false) mid ∧ digit_run g post.
Proof.
  revert k. induction s as [|x s IH]; intros k.
  - simpl. split; [done|].
    intros (mid & post & Hs & _ & _ & (d & r & -> & _)%digit_run_head).
    by destruct mid.
  - cbn [lazy_scan]. destruct (leading_digits (x :: s)) as [g'|] eqn:Hld.
    + split.
      * intros [= <- <-].
        apply leading_digits_spec in Hld as (post & Hs & Hrun).
        by exists [], post.
      * intros (mid & post & Hs & <- & Hmid & Hrun).
        destruct mid as [|y mid]; simpl in Hs.
        -- assert (leading_digits (x :: s) = Some g) as H2
             by (apply leading_digits_spec; eauto).
           by simplify_eq.
        -- injection Hs as -> ->. apply Forall_cons in Hmid as [[_ Hy] _].
           unfold leading_digits in Hld. by rewrite Hy in Hld.
    + case_bool_decide as Hx.
      * split; [done|]. intros (mid & post & Hs & <- & Hmid & Hrun).
        destruct mid as [|y mid]; simpl in Hs.
        -- assert (leading_digits (x :: s) = Some g)
             by (apply leading_digits_spec; eauto). congruence.
        -- injection Hs as -> ->. by apply Forall_cons in Hmid as [[? _] _].
      * rewrite bind_shift. split.
        -- intros (k' & -> & Hs).
           apply IH in Hs as (mid & post & -> & <- & Hmid & Hrun).
           exists (x :: mid), post. repeat split; [|done].
           apply Forall_cons. split; [|done]. split; [done|].
           destruct (is_digit x) eqn:E; [|done]. exfalso.
           unfold leading_digits in Hld. by rewrite E in Hld.
        -- intros (mid & post & Hs & <- & Hmid & Hrun).
           destruct mid as [|y mid]; simpl in Hs.
           ++ assert (leading_digits (x :: s) = Some g)
                by (apply leading_digits_spec; eauto). congruence.
           ++ injection Hs as -> ->. apply Forall_cons in Hmid as [_ Hmid].
              exists (length mid). split; [done|].
              apply IH. by exists mid, post.
Qed.

Lemma lazy_scan_is_Some s :
  is_Some (lazy_scan s) ↔
  ∃ mid d post,
    s = mid ++ d :: post ∧ Forall (fun x => x ≠ LF) mid ∧ is_digit d = true.
Proof.
  split.
  - intros [[k g] (mid & post & -> & _ & Hmid & Hrun)%lazy_scan_spec].
    apply digit_run_head in Hrun as (d & r & -> & Hd).
    exists mid, d, (r ++ post). repeat split; [|done].
    eapply Forall_impl; [done|]. by intros x [??].
  - intros (mid & d & post & -> & Hmid & Hd).
    induction Hmid as [|x mid Hx _ IH]; cbn [lazy_scan app].
    + unfold leading_digits. by rewrite Hd.
    + destruct (leading_digits (x :: mid ++ d :: post)); [done|].
      rewrite bool_decide_false by done.
      destruct IH as [[k g] ->]. done.
Qed.

Lemma word_ci_length w t : word_ci w t → length t = length (chars w).
Proof. apply Forall2_length. Qed.

Lemma match_here_spec s k g :
  match_here s = Some (k, g) ↔
  ∃ t mid post,
    s = t ++ mid ++ g ++ post ∧ word_ci "score" t ∧ length mid = k ∧
    Forall (fun x => x ≠ LF ∧ is_digit x = false) mid ∧ digit_run g post.
Proof.
  unfold match_here, word_ci. split.
  - destruct (strip _ _ s) as [s'|] eqn:Hs; [|done]. simpl.
    apply strip_spec in Hs as (t & -> & Ht).
    intros (mid & post & -> & ? & ? & ?)%lazy_scan_spec. by exists t, mid, post.
  - intros (t & mid & post & -> & Ht & Hk & Hmid & Hrun).
    assert (strip IGNORECASE (chars "score") (t ++ mid ++ g ++ post)
            = Some (mid ++ g ++ post)) as -> by (apply strip_spec; eauto).
    simpl. apply lazy_scan_spec. by exists mid, post.
Qed.

Lemma match_here_is_Some s : is_Some (match_here s) ↔ score_line s.
Proof.
  unfold match_here, score_line, word_ci. split.
  - destruct (strip _ _ s) as [s'|] eqn:Hs; [|by intros [??]]. simpl.
    apply strip_spec in Hs as (t & -> & Ht).
    intros (mid & d & post & -> & ? & ?)%lazy_scan_is_Some.
    by exists t, mid, d, post.
  - intros (t & mid & d & post & -> & Ht & Hmid & Hd).
    assert (strip IGNORECASE (chars "score") (t ++ mid ++ d :: post)
            = Some (mid ++ d :: post)) as -> by (apply strip_spec; eauto).
    simpl. apply lazy_scan_is_Some. by exists mid, d, post.
Qed.

Lemma match_here_None s : match_here s = None ↔ ¬ score_line s.
Proof. by rewrite <- match_here_is_Some, eq_None_not_Some. Qed.

Lemma first_match_spec s i k g :
  first_match s = Some (i, k, g) ↔
  match_here (drop i s) = Some (k, g) ∧ (i ≤ length s)%nat ∧
  ∀ j, (j < i)%nat → match_here (drop j s) = None.
Proof.
  revert i. induction s as [|x s IH]; intros i; cbn [first_match].
  - destruct (match_here []) as [[k' g']|] eqn:H0.
    + split.
      * intros [= <- <- <-]. split_and!; [done..|]. intros; lia.
      * intros (Hi & _ & _). rewrite drop_nil in Hi. by simplify_eq.
    + split; [done|]. intros (Hi & _ & _). rewrite drop_nil in Hi. congruence.
  - destruct (match_here (x :: s)) as [[k' g']|] eqn:H0.
    + split.
      * intros [= <- <- <-]. split_and!; [done|simpl; lia|]. intros; lia.
      * intros (Hi & _ & Hlt). destruct i as [|i]; [by simplify_eq/=|].
        specialize (Hlt 0%nat ltac:(lia)). simpl in Hlt. congruence.
    + destruct i as [|i].
      * split; [|intros (Hi & _); simpl in Hi; congruence].
        destruct (first_match s) as [[[??]?]|]; simpl; done.
      * specialize (IH i). split.
        -- destruct (first_match s) as [[[i' k''] g'']|]; [|done].
           simpl. intros [= -> -> ->].
           destruct IH as [(? & ? & Hlt) _]; [done|].
           split_and!; [done|simpl; lia|].
           intros [|j] ?; [done|]. apply Hlt. lia.
        -- intros (Hi & Hlen & Hlt). simpl in Hi, Hlen.
           rewrite (proj2 IH); [done|].
           split_and!; [done|lia|]. intros j ?. apply (Hlt (S j)). lia.
Qed.

Lemma first_match_None s :
  first_match s = None ↔ ∀ j, match_here (drop j s) = None.
Proof.
  induction s as [|x s IH]; cbn [first_match].
  - destruct (match_here []) eqn:H0.
    + destruct p. split; [done|]. intros H. specialize (H 0%nat). simpl in H. congruence.
    + split; [|done]. intros _ j. by rewrite drop_nil.
  - destruct (match_here (x :: s)) as [[k' g']|] eqn:H0.
    + split; [done|]. intros H. specialize (H 0%nat). simpl in H. congruence.
    + split.
      * destruct (first_match s) as [[[??]?]|] eqn:Hs; [done|]. intros _.
        intros [|j]; [done|]. simpl. by apply IH.
      * intros H. destruct IH as [_ ->]; [done|]. intros j. apply (H (S j)).
Qed.

Lemma search_from_score s pos :
  Re.search_from IGNORECASE score_pattern s pos =
  ('(i, k, g) ← first_match s; Some (group_marks (pos + i + 5 + k) g ∅)).
Proof.
  revert pos. induction s as [|x s IH]; intros pos;
    cbn [Re.search_from first_match]; rewrite sre_match_score.
  - destruct (match_here []) as [[k g]|]; simpl; [|done].
    by rewrite Nat.add_0_r.
  - destruct (match_here (x :: s)) as [[k g]|]; simpl.
    + by rewrite Nat.add_0_r.
    + rewrite IH. destruct (first_match s) as [[[i k] g]|]; simpl; [|done].
      unfold group_marks. repeat f_equal; lia.
Qed.

Lemma group_1 content b g :
  Re.group content (group_marks b g ∅) 1 =
  Some (take (length g) (drop b content)).
Proof.
  unfold Re.group, group_marks. simpl.
  rewrite (lookup_insert_ne _ 1%nat 0%nat), lookup_insert_eq by done. simpl.
  rewrite lookup_insert_eq. simpl.
  by replace (b + length g - b)%nat with (length g) by lia.
Qed.

Lemma first_match_group s i k g :
  first_match s = Some (i, k, g) →
  take (length g) (drop (i + 5 + k) s) = g.
Proof.
  intros ((t & mid & post & Hs & Ht & <- & _)%match_here_spec & _)%first_match_spec.
  apply word_ci_length in Ht. simpl in Ht.
  rewrite <- Nat.add_assoc, <- drop_drop, Hs, <- Ht, <- length_app.
  rewrite (assoc_L app t mid), drop_app_length. by rewrite take_app_length.
Qed.

(** Lines 75-80, with [re.search] and [group(1)] replaced by one scan. *)
Lemma extract_score_first_match content :
  extract_score content =
  match first_match (codepoints content) with
  | Some (_, _, g) =>
      match int g with
      | Return score => Return (Some (Z.min (Z.max score 0) 20))
      | Raise e => Raise e
      end
  | None => Return None
  end.
Proof.
  unfold extract_score, Re.search. rewrite search_from_score.
  destruct (first_match (codepoints content)) as [[[i k] g]|] eqn:Hm; simpl; [|done].
  by rewrite group_1, (first_match_group _ _ _ _ Hm).
Qed.

Lemma is_digit_value d :
  is_digit d = true → ∃ v, digit_value d = Some v ∧ 0 ≤ v ≤ 9.
Proof.
  unfold is_digit. intros [v Hv]%bool_decide_eq_true. exists v. split; [done|].
  unfold digit_value in Hv.
  destruct (List.find _ decimal_zeros) as [zero|] eqn:Hfind; [|done].
  apply List.find_some in Hfind as [_ [?%N.leb_le ?%N.ltb_lt]%andb_true_iff].
  simplify_eq/=. lia.
Qed.

(** [int] never raises on what group 1 holds, and reads a number below 100. *)
Lemma int_digit_run g post :
  digit_run g post → ∃ n, int g = Return n ∧ 0 ≤ n ≤ 99.
Proof.
  intros [(d1 & -> & (v1 & H1 & ?)%is_digit_value & _)
         |(d1 & d2 & -> & (v1 & H1 & ?)%is_digit_value
                        & (v2 & H2 & ?)%is_digit_value)];
    unfold int, int_digits; simpl; rewrite H1; simpl.
  - exists v1. split; [done|lia].
  - rewrite H2. simpl. exists (10 * v1 + v2). split; [done|lia].
Qed.

Lemma first_match_score_match s i k g :
  first_match s = Some (i, k, g) → score_match s g.
Proof.
  intros (Hm & Hi & Hlt)%first_match_spec.
  apply match_here_spec in Hm as (t & mid & post & Hs & Ht & <- & Hmid & Hrun).
  exists (take i s), t, mid, post. split_and!; [|done..|].
  - by rewrite <- Hs, take_drop.
  - intros j Hj. rewrite length_take in Hj. apply match_here_None, Hlt. lia.
Qed.

Lemma score_match_first_match s g :
  score_match s g → ∃ i k, first_match s = Some (i, k, g).
Proof.
  intros (pre & t & mid & post & -> & Ht & Hmid & Hrun & Hleft).
  exists (length pre), (length mid). apply first_match_spec. split_and!.
  - rewrite drop_app_length. apply match_here_spec. by exists t, mid, post.
  - rewrite length_app. lia.
  - intros j Hj. by apply match_here_None, Hleft.
Qed.


(** ** Score extraction *)

(** Either no "score" is followed by a digit on its line and nothing is
    extracted, or [re.search] stops at the first one and the number in its
    group is clamped. *)
Lemma extract_score_cases content :
  (first_match (codepoints content) = None ∧ extract_score content = Return None) ∨
  (∃ i k g n,
     first_match (codepoints content) = Some (i, k, g) ∧ int g = Return n ∧
     0 ≤ n ≤ 99 ∧ extract_score content = Return (Some (Z.min (Z.max n 0) 20))).
Proof.
  rewrite extract_score_first_match.
  destruct (first_match (codepoints content)) as [[[i k] g]|] eqn:Hm; [right|by left].
  pose proof (first_match_score_match _ _ _ _ Hm) as (_ & _ & _ & post & _ & _ & _ & Hrun & _).
  destruct (int_digit_run _ _ Hrun) as (n & Hn & ?).
  exists i, k, g, n. by rewrite Hn.
Qed.

Lemma score_line_occurs i s : score_line (drop i s) → occurs_ci "score" s.
Proof.
  intros (t & mid & d & post & Hs & Ht & _).
  exists (take i s), t, (mid ++ d :: post). split; [|done].
  by rewrite <- Hs, take_drop.
Qed.

(** The score that is stored, and when: see [score_match]. *)
Lemma extract_score_Some content v :
  extract_score content = Return (Some v) ↔
  ∃ g n, score_match (codepoints content) g ∧ int g = Return n ∧
         v = Z.min (Z.max n 0) 20.
Proof.
  destruct (extract_score_cases content)
    as [[Hm ->]|(i & k & g & n & Hm & Hn & _ & ->)].
  - split; [done|]. intros (g & n & (i & k & Hg)%score_match_first_match & _).
    congruence.
  - split.
    + intros [= <-]. exists g, n. split_and!; [|done..].
      by eapply first_match_score_match.
    + intros (g' & n' & (i' & k' & Hg)%score_match_first_match & Hn' & ->).
      rewrite Hm in Hg. injection Hg as <- <- <-. congruence.
Qed.

Lemma extract_score_None content :
  extract_score content = Return None ↔
  ∀ i, ¬ score_line (drop i (codepoints content)).
Proof.
  destruct (extract_score_cases content)
    as [[Hm ->]|(i & k & g & n & Hm & _ & _ & ->)].
  - split; [|done]. intros _ j. apply match_here_None.
    by apply first_match_None.
  - split; [done|]. intros Hno. exfalso.
    apply first_match_spec in Hm as [Hm _].
    apply (Hno i), match_here_is_Some. by rewrite Hm.
Qed.

Lemma extract_score_range content v :
  extract_score content = Return (Some v) → 0 ≤ v ≤ 20.
Proof. intros (g & n & _ & _ & ->)%extract_score_Some. lia. Qed.

Lemma word_ci_score : word_ci "score" [115; 99; 111; 114; 101]%N.
Proof.
  unfold word_ci.
  repeat (constructor; [apply (bool_decide_unpack _); vm_compute; exact I|]).
  constructor.
Qed.

(** [re.search] finds a match exactly when there is a [score_match]; group 1
    of the match is its digits. *)
Lemma search_score_match content m :
  Re.search IGNORECASE score_pattern content = Some m →
  ∃ g, Re.group content m 1 = Some g ∧ score_match content g.
Proof.
  unfold Re.search. rewrite search_from_score.
  destruct (first_match content) as [[[i k] g]|] eqn:Hm; simpl; [|done].
  intros [= <-]. exists g. split.
  - by rewrite group_1, (first_match_group _ _ _ _ Hm).
  - by eapply first_match_score_match.
Qed.

Lemma score_match_search content g :
  score_match content g →
  ∃ m, Re.search IGNORECASE score_pattern content = Some m.
Proof.
  intros (i & k & Hm)%score_match_first_match.
  unfold Re.search. rewrite search_from_score, Hm. simpl. eauto.
Qed.

(** C1 (amended): the score is extracted from the leftmost occurrence of the
    word "score", in any case, that is followed by a digit with no line feed
    in between; the number is that first digit together with the digit that
    follows it, if any, clamped into [0, 20].  The score is absent exactly
    when no occurrence of "score" is followed by a digit on its line; so it
    is absent when the text does not contain "score" at all.  The extraction
    never raises.  Case is that of [re.IGNORECASE] (the long s counts as an
    s) and a digit is any decimal digit of Unicode. *)
Theorem score_extraction (content : string) :
  (∀ v, extract_score content = Return (Some v) ↔
        ∃ g n, score_match (codepoints content) g ∧ int g = Return n ∧
               v = Z.min (Z.max n 0) 20) ∧
  (extract_score content = Return None ↔
     ∀ i, ¬ score_line (drop i (codepoints content))) ∧
  (¬ occurs_ci "score" (codepoints content) →
   extract_score content = Return None) ∧
  (∃ r, extract_score content = Return r).
Proof.
  split_and!.
  - intros v. apply extract_score_Some.
  - apply extract_score_None.
  - intros Hno. apply extract_score_None. intros i Hi.
    by apply Hno, (score_line_occurs i).
  - destruct (extract_score_cases content)
      as [[_ ->]|(i & k & g & n & _ & _ & _ & ->)]; eauto.
Qed.

Lemma score_extraction_example :
  ∃ g n, score_match (codepoints "Satisfaction Score: 14/20") g ∧
         int g = Return n ∧ 14 = Z.min (Z.max n 0) 20.
Proof.
  apply (proj1 (score_extraction "Satisfaction Score: 14/20")). reflexivity.
Defined.

(** C1, as the specification words it, fails: in this text the word "score"
    is followed, a line feed in between, by a one-digit number, and no score
    is extracted. *)
Lemma score_after_line_feed :
  score_then_digit (codepoints "score
7") ∧
  extract_score "score
7" = Return None.
Proof.
  split; [|reflexivity].
  exists [], [115; 99; 111; 114; 101]%N, [LF], 55%N, [].
  split_and!; [reflexivity| |reflexivity]. apply word_ci_score.
Qed.

(** C4 (amended): in a text that holds "score: -5" where no earlier "score"
    is followed by a digit on its line, and where no digit follows the 5,
    the pattern does match: [.*?] passes over the colon, the blank and the
    minus sign, the group holds "5", and the score recorded is 5.  ("score"
    in any case of [re.IGNORECASE], digits of any script.) *)
Theorem negative_score_matches (content : string) (pre post : codes) :
  codepoints content = pre ++ codepoints "score: -5" ++ post →
  (∀ i, (i < length pre)%nat → ¬ score_line (drop i (codepoints content))) →
  match post with d :: _ => is_digit d = false | [] => True end →
  extract_score content = Return (Some 5).
Proof.
  intros Hcontent Hleft Hpost. apply extract_score_Some.
  exists [53%N], 5. split_and!; [|done..]. rewrite Hcontent in Hleft |- *.
  exists pre, [115; 99; 111; 114; 101]%N, [58; 32; 45]%N, post.
  split_and!; [done|apply word_ci_score| | |done].
  - repeat constructor; done.
  - left. exists 53%N. by split_and!.
Qed.

Lemma negative_score_matches_example :
  extract_score "Overall score: -5 (poor)" = Return (Some 5).
Proof.
  apply (negative_score_matches "Overall score: -5 (poor)"
           (codepoints "Overall ") (codepoints " (poor)")).
  - reflexivity.
  - intros i Hi. apply match_here_None.
    do 8 (destruct i as [|i]; [vm_compute; reflexivity|]).
    vm_compute in Hi. lia.
  - reflexivity.
Defined.

(** C4, as stated, fails: "score: -5" yields the score 5. *)
Lemma negative_score_is_5 :
  extract_score "score: -5" = Return (Some 5) ∧
  extract_score "score: -5" ≠ Return None.
Proof. split; [reflexivity|discriminate]. Qed.

(** ** The scrape URL *)

Lemma chars_str t : chars (str t) = t.
Proof. apply String.list_ascii_of_string_of_list_ascii. Qed.

Lemma country_map_other country :
  country ∉ ["United States"; "United Kingdom"; "Philippines"] →
  country_map !! country = None.
Proof.
  intros Hc. unfold country_map.
  rewrite !lookup_insert_ne, lookup_singleton_ne; [done|..];
    intros <-; apply Hc; set_solver.
Qed.

(** C5: the URL is the template followed by the country name with every
    blank turned into an underscore and every other character kept, except
    for the three names of the table, which are replaced by their entry
    first. *)
Theorem scrape_url_spec :
  (∀ country,
     country ∉ ["United States"; "United Kingdom"; "Philippines"] →
     wiki_url country =
     "https://en.wikipedia.org/wiki/List_of_political_parties_in_"
       +:+ replace " " "_" country) ∧
  wiki_url "United States" =
    "https://en.wikipedia.org/wiki/List_of_political_parties_in_the_United_States" ∧
  wiki_url "United Kingdom" =
    "https://en.wikipedia.org/wiki/List_of_political_parties_in_the_United_Kingdom" ∧
  wiki_url "Philippines" =
    "https://en.wikipedia.org/wiki/List_of_political_parties_in_the_Philippines" ∧
  (∀ country,
     wiki_url country =
     "https://en.wikipedia.org/wiki/List_of_political_parties_in_"
       +:+ replace " " "_" (default country (country_map !! country))) ∧
  (∀ s, length (chars (replace " " "_" s)) = length (chars s) ∧
        ∀ i c, chars s !! i = Some c →
               chars (replace " " "_" s) !! i
               = Some (if bool_decide (c = " "%char) then "_"%char else c)).
Proof.
  split_and!; [|reflexivity..|done|].
  - intros country Hc. unfold wiki_url. by rewrite country_map_other.
  - intros s. unfold replace. rewrite chars_str, length_fmap. split; [done|].
    intros i c Hi. by rewrite list_lookup_fmap, Hi.
Qed.

Lemma scrape_url_south_korea :
  wiki_url "South Korea" =
  "https://en.wikipedia.org/wiki/List_of_political_parties_in_South_Korea".
Proof.
  rewrite (proj1 scrape_url_spec "South Korea"); [reflexivity|].
  vm_compute. intros H. repeat (inversion H as [|? ? ? H']; clear H; rename H' into H).
Defined.

(** ** Dicts *)

Lemma dict_keys_set {V} k (v : V) d :
  Dict.keys (Dict.set k v d) =
  if bool_decide (k ∈ Dict.keys d) then Dict.keys d else Dict.keys d ++ [k].
Proof.
  unfold Dict.keys. induction d as [|[k' v'] d IH]; csimpl; [done|].
  destruct (decide (k' = k)) as [->|Hk].
  - rewrite !bool_decide_true; [done|by left|done].
  - rewrite bool_decide_false by done. csimpl. rewrite IH.
    case_bool_decide as Hin.
    + rewrite bool_decide_true; [done|]. by right.
    + rewrite bool_decide_false; [done|]. by intros [->|?]%elem_of_cons.
Qed.

Lemma dict_get_is_Some {V} k (d : Dict.t V) :
  is_Some (Dict.get k d) ↔ k ∈ Dict.keys d.
Proof.
  unfold Dict.keys. induction d as [|[k' v'] d IH]; csimpl.
  - split; [by intros [??]|by intros ?%elem_of_nil].
  - case_bool_decide as Hk.
    + subst. split; [left|eauto].
    + rewrite IH. split; [by right|]. by intros [->|?]%elem_of_cons.
Qed.

(** ** The evaluator *)

Section Evaluator.

Context {W : Type}.
Variable chat_completions_create :
  string → list (string * string) → W → result (list (option string)) * W.

(** One turn of the loop: the call, the reading of the reply, the score. *)
Lemma evaluate_loop_cons party parties country pa ps (st : state W) :
  evaluate_loop chat_completions_create (party :: parties) country pa ps st =
  match chat_completions_create "gpt-4-turbo" (messages party country) (world st) with
  | (Raise e, w) => (Raise e, State w (page st))
  | (Return choices, w) =>
      match first_content choices with
      | Raise e => (Raise e, State w (page st))
      | Return content =>
          match extract_score content with
          | Raise e => (Raise e, State w (page st))
          | Return score =>
              evaluate_loop chat_completions_create parties country
                (Dict.set party content pa) (Dict.set party score ps)
                (State w (page st))
          end
      end
  end.
Proof.
  cbn [evaluate_loop]. unfold mbind, M_bind, call, lift.
  destruct (chat_completions_create _ _ _) as [[choices|e] w]; [|done].
  destruct (first_content choices) as [content|e]; [|done].
  by destruct (extract_score content).
Qed.

Lemma evaluate_loop_app pre post country pa ps (st : state W) :
  evaluate_loop chat_completions_create (pre ++ post) country pa ps st =
  match evaluate_loop chat_completions_create pre country pa ps st with
  | (Return (pa', ps'), st') =>
      evaluate_loop chat_completions_create post country pa' ps' st'
  | (Raise e, st') => (Raise e, st')
  end.
Proof.
  revert pa ps st. induction pre as [|party pre IH]; intros pa ps st; [done|].
  rewrite <- app_comm_cons, !evaluate_loop_cons.
  destruct (chat_completions_create _ _ _) as [[choices|e] w]; [|done].
  destruct (first_content choices) as [content|e]; [|done].
  destruct (extract_score content); [|done]. apply IH.
Qed.

(** What the loop keeps true of the two dicts. *)
Lemma evaluate_loop_invariant parties country pa ps (st : state W) pa' ps' st' :
  evaluate_loop chat_completions_create parties country pa ps st
    = (Return (pa', ps'), st') →
  Dict.keys pa = Dict.keys ps →
  Dict.keys pa' = Dict.keys ps' ∧
  (∀ p, p ∈ Dict.keys pa' ↔ p ∈ Dict.keys pa ∨ p ∈ parties) ∧
  (Forall (fun '(_, s) => ∀ v, s = Some v → 0 ≤ v ≤ 20) ps →
   Forall (fun '(_, s) => ∀ v, s = Some v → 0 ≤ v ≤ 20) ps').
Proof.
  revert pa ps st. induction parties as [|party parties IH]; intros pa ps st.
  - intros [= <- <- <-] Hk. split_and!; [done| |done].
    intros p. rewrite elem_of_nil. tauto.
  - rewrite evaluate_loop_cons.
    destruct (chat_completions_create _ _ _) as [[choices|e] w]; [|done].
    destruct (first_content choices) as [content|e]; [|done].
    destruct (extract_score content) as [score|e] eqn:Hscore; [|done].
    intros Hrun Hk. apply IH in Hrun as (Hk' & Hin & Hrange).
    + split_and!; [done| |].
      * intros p. rewrite Hin, dict_keys_set, elem_of_cons.
        case_bool_decide; [|rewrite elem_of_app, list_elem_of_singleton];
          intuition (subst; auto).
      * intros Hps. apply Hrange. clear -Hps Hscore.
        induction Hps as [|[k s] ps Hs Hps IHps]; simpl.
        -- constructor; [|done]. intros v ->.
           by apply extract_score_range in Hscore.
        -- case_bool_decide; constructor; try done.
           intros v ->. by apply extract_score_range in Hscore.
    + by rewrite !dict_keys_set, Hk.
Qed.


(** C8: when the call to the generation service raises for some party, the
    parties before it having been evaluated, [evaluate_parties] raises that
    exception: it returns no mapping, and makes no call for the parties that
    follow (the world is left as the failing call left it). *)
Theorem evaluation_aborts pre party post country (st st1 : state W) pa ps e w2 :
  evaluate_parties chat_completions_create pre country st
    = (Return (pa, ps), st1) →
  chat_completions_create "gpt-4-turbo" (messages party country) (world st1)
    = (Raise e, w2) →
  evaluate_parties chat_completions_create (pre ++ party :: post) country st
    = (Raise e, State w2 (page st1)).
Proof.
  unfold evaluate_parties. intros Hpre Hcall.
  by rewrite evaluate_loop_app, Hpre, evaluate_loop_cons, Hcall.
Qed.

(** C10: the two mappings that [evaluate_parties] returns have the same
    keys, in the same order: a party has an analysis exactly when it has a
    score entry, present or absent.  The keys are the parties of the list. *)
Theorem same_keys parties country (st st' : state W) pa ps :
  evaluate_parties chat_completions_create parties country st
    = (Return (pa, ps), st') →
  Dict.keys pa = Dict.keys ps ∧
  (∀ party, is_Some (Dict.get party pa) ↔ is_Some (Dict.get party ps)) ∧
  (∀ party, party ∈ Dict.keys pa ↔ party ∈ parties).
Proof.
  intros (Hk & Hin & _)%evaluate_loop_invariant; [|done].
  split_and!; [done| |].
  - intros party. by rewrite !dict_get_is_Some, Hk.
  - intros party. rewrite Hin. unfold Dict.keys, Dict.empty. simpl.
    rewrite elem_of_nil. tauto.
Qed.

(** Every score in the mapping returned lies in [0, 20]. *)
Lemma evaluate_parties_range parties country (st st' : state W) pa ps party v :
  evaluate_parties chat_completions_create parties country st
    = (Return (pa, ps), st') →
  Dict.get party ps = Some (Some v) → 0 ≤ v ≤ 20.
Proof.
  intros (_ & _ & Hrange)%evaluate_loop_invariant; [|done].
  specialize (Hrange ltac:(constructor)). intros Hget.
  induction Hrange as [|[k s] ps' Hs _ IH]; simpl in Hget; [done|].
  case_bool_decide; [|by apply IH]. simplify_eq. by apply Hs.
Qed.

End Evaluator.

Lemma evaluation_aborts_example :
  evaluate_parties
    (scripted_chat [Return [Some "Score: 14"]; Raise (ServiceError "rate limit");
                    Return [Some "Score: 9"]])
    (["Liberal Party"] ++ "Green Party" :: ["Labour Party"]) "Canada"
    (State 0%nat [])
  = (Raise (ServiceError "rate limit"), State 2%nat []).
Proof.
  apply (evaluation_aborts _ ["Liberal Party"] "Green Party" ["Labour Party"]
           "Canada" (State 0%nat []) (State 1%nat [])
           [("Liberal Party", "Score: 14")] [("Liberal Party", Some 14)]);
    reflexivity.
Defined.

Lemma same_keys_example :
  Dict.keys [("Liberal Party", "Score: 14"); ("Green Party", "No number")]
  = Dict.keys [("Liberal Party", Some 14); ("Green Party", None)].
Proof.
  apply (same_keys
           (scripted_chat [Return [Some "Score: 14"]; Return [Some "No number"]])
           ["Liberal Party"; "Green Party"] "Canada"
           (State 0%nat []) (State 2%nat [])).
  reflexivity.
Defined.

(** ** The page *)

Lemma valid_scores_elem scores party v :
  (party, v) ∈ valid_scores scores ↔ (party, Some v) ∈ Dict.items scores.
Proof.
  unfold valid_scores, Dict.items. rewrite list_elem_of_omap. split.
  - intros ([k [s|]] & Hin & Heq); by simplify_eq/=.
  - intros Hin. by exists (party, Some v).
Qed.

Lemma valid_scores_nil scores :
  valid_scores scores = [] ↔ ∀ party v, (party, Some v) ∉ Dict.items scores.
Proof.
  split.
  - intros Hnil party v Hin%valid_scores_elem. rewrite Hnil in Hin.
    by apply elem_of_nil in Hin.
  - intros Hnone. destruct (valid_scores scores) as [|[party v] l] eqn:Hv; [done|].
    destruct (Hnone party v). apply valid_scores_elem. rewrite Hv. by left.
Qed.

Section Presentation.

Context {W : Type}.
Variable requests_get : string → W → result response * W.
Variable BeautifulSoup : string → list node.
Variable chat_completions_create :
  string → list (string * string) → W → result (list (option string)) * W.
Variable countries : list (string * string).
Variable matplotlib_layout : figure → W → result unit * W.

Lemma show_run e (st : state W) :
  show e st = (Return (), State (world st) (page st ++ [e])).
Proof. reflexivity. Qed.

Lemma show_scores_run scores (st : state W) :
  show_scores matplotlib_layout scores st =
  let shown := page st ++ [Header "📊 Satisfaction Score Comparison"] in
  match valid_scores scores with
  | [] =>
      (Return (),
       State (world st)
         (shown ++ [Warning "No valid scores found to visualize."]))
  | _ :: _ =>
      let fig := score_figure (valid_scores scores) in
      match matplotlib_layout fig (world st) with
      | (Return _, w) => (Return (), State w (shown ++ [Pyplot fig]))
      | (Raise e, w) => (Raise e, State w shown)
      end
  end.
Proof.
  unfold show_scores, mbind, M_bind. rewrite show_run. cbv zeta.
  destruct (valid_scores scores) as [|b l]; [by rewrite show_run|].
  unfold call. simpl.
  by destruct (matplotlib_layout _ _) as [[[]|e] w].
Qed.

(** C9: the bars of the chart are the parties whose score is present, each
    with its score, in the order of the mapping.  When some party has a
    present score the figure made of them is handed to matplotlib, and it is
    put on the page once matplotlib has laid it out; should matplotlib raise
    there, the exception leaves [main] with neither chart nor warning on the
    page.  When no party has a present score the page gets the warning:
    matplotlib is not called and no chart is on the page. *)
Theorem chart_of_present_scores scores (st : state W) :
  let shown := page st ++ [Header "📊 Satisfaction Score Comparison"] in
  let fig := score_figure (valid_scores scores) in
  (∀ party v,
     (party, v) ∈ bars fig ↔ (party, Some v) ∈ Dict.items scores) ∧
  ((∃ party v, (party, Some v) ∈ Dict.items scores) →
   show_scores matplotlib_layout scores st =
   match matplotlib_layout fig (world st) with
   | (Return _, w) => (Return (), State w (shown ++ [Pyplot fig]))
   | (Raise e, w) => (Raise e, State w shown)
   end) ∧
  ((∀ party v, (party, Some v) ∉ Dict.items scores) →
   show_scores matplotlib_layout scores st =
   (Return (),
    State (world st)
      (shown ++ [Warning "No valid scores found to visualize."]))).
Proof.
  rewrite show_scores_run. cbv zeta. split_and!.
  - intros party v. unfold score_figure, Dict.keys, Dict.values. simpl.
    by rewrite zip_fst_snd, valid_scores_elem.
  - intros (party & v & Hin%valid_scores_elem).
    by destruct (valid_scores scores); [apply elem_of_nil in Hin|].
  - intros Hnone%valid_scores_nil. by rewrite Hnone.
Qed.

Lemma scrape_party_info_run country (st : state W) :
  scrape_party_info requests_get BeautifulSoup country st =
  match requests_get (wiki_url country) (world st) with
  | (Return r, w) =>
      (Return (take 5 (party_names (BeautifulSoup (content r)))),
       State w (page st))
  | (Raise e, w) => (Raise e, State w (page st))
  end.
Proof.
  unfold scrape_party_info, mbind, M_bind, call.
  by destruct (requests_get _ _) as [[r|e] w].
Qed.

Lemma main_run country clicked (st : state W) :
  main requests_get BeautifulSoup chat_completions_create countries
    matplotlib_layout country clicked st =
  let st0 := State (world st) (page st ++ front_page countries country) in
  if clicked
  then analyze requests_get BeautifulSoup chat_completions_create
         matplotlib_layout country st0
  else (Return (), st0).
Proof.
  unfold main, front_page, mbind, M_bind. rewrite !show_run. simpl.
  destruct (flag_urls countries !! country); rewrite !show_run; simpl;
    rewrite <- !(assoc_L app); by destruct clicked.
Qed.


End Presentation.

Lemma chart_of_present_scores_example :
  show_scores laid_out [("Liberal Party", Some 14); ("Green Party", None)]
    (State () [])
  = (Return (),
     State ()
       ([] ++ [Header "📊 Satisfaction Score Comparison"] ++
        [Pyplot (score_figure [("Liberal Party", 14)])])) ∧
  show_scores bad_mathtext [("Liberal Party", Some 14); ("Green Party", None)]
    (State () [])
  = (Raise (ValueError "ParseFatalException"),
     State () ([] ++ [Header "📊 Satisfaction Score Comparison"])).
Proof.
  split.
  - apply (proj1 (proj2 (chart_of_present_scores laid_out
                           [("Liberal Party", Some 14); ("Green Party", None)]
                           (State () [])))).
    exists "Liberal Party", 14. by left.
  - apply (proj1 (proj2 (chart_of_present_scores bad_mathtext
                           [("Liberal Party", Some 14); ("Green Party", None)]
                           (State () [])))).
    exists "Liberal Party", 14. by left.
Defined.



(** The scenario of the specification: two parties of Canada, replies that
    hold "score: 14" and "score: 18", and a chart with two bars. *)
Example canada_two_parties :
  report
    (scripted_chat [Return [Some "Steady record. Overall score: 14 of 20."];
                    Return [Some "Strong record. Overall score: 18 of 20."]])
    laid_out
    ["Liberal Party of Canada"; "Conservative Party of Canada"] "Canada"
    (State 0%nat [])
  = (Return (),
     State 2%nat
       [Success "Found 2 political parties.";
        Write ["Liberal Party of Canada"; "Conservative Party of Canada"];
        Spinner "Evaluating each party using AI...";
        Header "🔍 Results";
        Subheader "Liberal Party of Canada";
        Markdown "Steady record. Overall score: 14 of 20.";
        Subheader "Conservative Party of Canada";
        Markdown "Strong record. Overall score: 18 of 20.";
        Header "📊 Satisfaction Score Comparison";
        Pyplot (score_figure [("Liberal Party of Canada", 14);
                              ("Conservative Party of Canada", 18)])]).
Proof. vm_compute. reflexivity. Qed.

(** ** The lister *)

Lemma is_prefix_spec p s : is_prefix p s = true ↔ ∃ post, s = p ++ post.
Proof.
  revert s. induction p as [|a p IH]; intros s; simpl.
  - split; [eauto|done].
  - destruct s as [|b s]; [split; [done|by intros [??]]|].
    rewrite andb_true_iff, bool_decide_eq_true, IH. split.
    + intros [-> [post ->]]. eauto.
    + intros [post [= -> ->]]. eauto.
Qed.

Lemma contains_spec needle hay :
  contains needle hay = true ↔ ∃ pre post, hay = pre ++ needle ++ post.
Proof.
  induction hay as [|b hay IH]; cbn [contains]; rewrite orb_true_iff, is_prefix_spec.
  - split.
    + intros [[post ->]|?]; [by exists [], post|done].
    + intros (pre & post & H). left. exists post.
      destruct pre; [done|discriminate].
  - rewrite IH. split.
    + intros [[post ->]|(pre & post & ->)]; [by exists [], post|].
      by exists (b :: pre), post.
    + intros ([|x pre] & post & H); [left; eauto|right].
      injection H as -> ->. eauto.
Qed.

Lemma str_in_lower_occurs w title :
  lower <$> chars w = chars w →
  str_in w (str_lower title) = true ↔ occurs w (chars title).
Proof.
  intros Hw. unfold str_in, str_lower, occurs, same_word.
  rewrite chars_str, contains_spec, Hw. split.
  - intros (pre & post & H).
    apply fmap_app_inv in H as (pre' & r & -> & H & ->).
    symmetry in H. apply fmap_app_inv in H as (t & post' & Ht & -> & ->).
    by exists pre', t, post'.
  - intros (pre & t & post & -> & Ht).
    exists (lower <$> pre), (lower <$> post). by rewrite !fmap_app, Ht.
Qed.

Lemma is_party_link_spec n :
  is_party_link n = true ↔
  ∃ title, tag_get n "title" = Some title ∧ occurs "party" (chars title).
Proof.
  unfold is_party_link. destruct (tag_get n "title") as [title|].
  - rewrite andb_true_iff, str_in_lower_occurs by done. split.
    + intros [_ ?]. eauto.
    + intros (? & [= <-] & Hocc). split; [|done].
      apply negb_true_iff, bool_decide_eq_false. intros ->.
      destruct Hocc as (pre & t & post & H & Ht%(f_equal length)).
      by destruct pre, t.
  - split; [done|by intros (? & ? & _)].
Qed.

Lemma li_under_ul_spec ancestors : li_under_ul ancestors = true ↔ in_ul_li ancestors.
Proof.
  unfold in_ul_li. induction ancestors as [|t r IH]; simpl.
  - split; [done|]. by intros ([|??] & ? & ? & ?).
  - rewrite orb_true_iff, andb_true_iff, !bool_decide_eq_true, IH. split.
    + intros [[-> (l2 & l3 & ->)%list_elem_of_split]|(l1 & l2 & l3 & ->)].
      * by exists [], l2, l3.
      * by exists (t :: l1), l2, l3.
    + intros ([|x l1] & l2 & l3 & H); injection H as -> ->.
      * left. split; [done|]. apply elem_of_app. right. by left.
      * right. eauto.
Qed.

Lemma kept_title_spec ancestors n title :
  kept_title ancestors n = Some title ↔ qualifies ancestors n title.
Proof.
  unfold kept_title, qualifies.
  destruct (bool_decide (tag_name n = Some "a")) eqn:Ha;
    [apply bool_decide_eq_true in Ha|apply bool_decide_eq_false in Ha];
    simpl; [|split; [done|by intros [? _]]].
  destruct (li_under_ul ancestors) eqn:Hu; simpl.
  2: { split; [done|]. intros (_ & Hin%li_under_ul_spec & _). congruence. }
  apply li_under_ul_spec in Hu.
  destruct (is_party_link n) eqn:Hp.
  - apply is_party_link_spec in Hp as (title' & Ht & Hocc). rewrite Ht. split.
    + by intros [= <-].
    + by intros (_ & _ & [= <-] & _).
  - split; [done|]. intros (_ & _ & Ht & Hocc).
    assert (is_party_link n = true) by (apply is_party_link_spec; eauto).
    congruence.
Qed.

(** Induction on the markup, the children of a tag included. *)
Lemma node_Forall_ind (P : node → Prop) :
  (∀ name attrs children, Forall P children → P (Tag name attrs children)) →
  (∀ s, P (NavigableString s)) →
  ∀ n, P n.
Proof.
  intros Htag Hstr. fix IH 1. intros [name attrs children|s]; [|apply Hstr].
  apply Htag. induction children as [|c children IHc]; constructor; [apply IH|done].
Qed.

Lemma omap_flat_map {A B C} (f : B → option C) (g : A → list B) l :
  omap f (flat_map g l) = flat_map (fun x => omap f (g x)) l.
Proof. induction l as [|x l IH]; simpl; [done|]. by rewrite omap_app, IH. Qed.

Lemma flat_map_Forall_ext {A B} (f g : A → list B) l :
  Forall (fun x => f x = g x) l → flat_map f l = flat_map g l.
Proof. induction 1 as [|x l Hx _ IH]; simpl; [done|]. by rewrite Hx, IH. Qed.

(** [select] with the selector [ul li a] keeps the anchors that have a list
    item of an unordered list among their ancestors. *)
Lemma select_node_descendants ancestors n :
  select_node (pending_for ancestors) n =
  omap (fun '(a, m) =>
          if bool_decide (tag_name m = Some "a") && li_under_ul a
          then Some m else None)
       (descendants ancestors n).
Proof.
  revert ancestors. induction n as [name attrs children IH|s] using node_Forall_ind;
    intros ancestors; [|by unfold pending_for; repeat case_match].
  cbn [descendants omap list_omap]. rewrite omap_flat_map.
  rewrite <- (flat_map_Forall_ext (select_node (pending_for (name :: ancestors))))
    by (eapply Forall_impl; [exact IH|]; by intros c ->).
  unfold pending_for at 1. cbn [li_under_ul tag_name].
  destruct (li_under_ul ancestors) eqn:Hu.
  - cbn [select_node]. rewrite andb_true_r.
    unfold pending_for. cbn [li_under_ul]. rewrite Hu, orb_true_r.
    rewrite (bool_decide_ext (Some name = Some "a") (name = "a")) by naive_solver.
    by case_bool_decide.
  - rewrite andb_false_r. unfold pending_for. cbn [li_under_ul].
    rewrite Hu, orb_false_r.
    destruct (bool_decide ("ul" ∈ ancestors)) eqn:Hin; cbn [select_node].
    + rewrite andb_true_r.
      rewrite (bool_decide_true ("ul" ∈ name :: ancestors))
        by (apply bool_decide_eq_true in Hin; by right).
      by case_bool_decide.
    + rewrite andb_false_r. apply bool_decide_eq_false in Hin.
      rewrite (bool_decide_ext ("ul" ∈ name :: ancestors) (name = "ul")).
      2: { rewrite elem_of_cons. intuition congruence. }
      by case_bool_decide.
Qed.

Lemma omap_omap_kept (l : list (list string * node)) :
  omap (fun li => if is_party_link li then tag_get li "title" else None)
    (omap (fun '(a, m) =>
             if bool_decide (tag_name m = Some "a") && li_under_ul a
             then Some m else None) l)
  = omap (fun '(a, m) => kept_title a m) l.
Proof.
  unfold kept_title. induction l as [|[a m] l IH]; [done|]. cbn [omap list_omap].
  destruct (_ && _); cbn [omap list_omap]; [|done].
  by destruct (is_party_link m); rewrite IH.
Qed.

Lemma party_names_kept soup :
  party_names soup = omap (fun '(a, m) => kept_title a m) (elements soup).
Proof.
  unfold party_names, select, elements.
  rewrite <- omap_omap_kept. f_equal. rewrite omap_flat_map.
  apply flat_map_ext. intros n. apply (select_node_descendants [] n).
Qed.



Section Lister.

Context {W : Type}.
Variable requests_get : string → W → result response * W.
Variable BeautifulSoup : string → list node.


End Lister.





(** ** Module initialisation *)

Section InitSteps.

Variable builtins : gset string.
Variable env : Init.environment.
Variable rest : Init.I unit.

Lemma bind_import_as {A} module name (k : unit → Init.I A) ns :
  (Init.import_as module name ≫= k) ns = k () (<[name := Init.Module module]> ns).
Proof. reflexivity. Qed.

Lemma bind_from_import {A} module name (k : unit → Init.I A) ns :
  (Init.from_import module name ≫= k) ns
  = k () (<[name := Init.Member module name]> ns).
Proof. reflexivity. Qed.

Lemma bind_store {A} name v (k : unit → Init.I A) ns :
  (Init.store name v ≫= k) ns = k () (<[name := v]> ns).
Proof. reflexivity. Qed.

Lemma bind_load_global {A} name v (k : Init.value → Init.I A) ns :
  ns !! name = Some v → (Init.load builtins name ≫= k) ns = k v ns.
Proof. intros H. unfold mbind, Init.I_bind, Init.load. by rewrite H. Qed.

Lemma bind_load_missing {A} name (k : Init.value → Init.I A) ns :
  ns !! name = None → name ∉ builtins →
  (Init.load builtins name ≫= k) ns = (Raise (NameError name), ns).
Proof.
  intros H Hb. unfold mbind, Init.I_bind, Init.load.
  by rewrite H, bool_decide_false.
Qed.

Lemma bind_secrets_getitem {A} key (k : Init.value → Init.I A) ns :
  (Init.secrets_getitem env key ≫= k) ns =
  match Init.secrets env !! key with
  | Some v => k (Init.Str v) ns
  | None => (Raise (KeyError key), ns)
  end.
Proof.
  unfold mbind, Init.I_bind, Init.secrets_getitem.
  by destruct (Init.secrets env !! key).
Qed.

(** The run of the module body: it stops at line 15, or at line 14 when the
    secrets store has no key; no client is built. *)
Lemma init_run :
  "os" ∉ builtins →
  ∃ ns,
    ns !! "client" = None ∧
    match Init.secrets env !! "OPENAI_API_KEY" with
    | Some key =>
        Init.run builtins env rest = (Raise (NameError "os"), ns) ∧
        ns !! "OPENAI_API_KEY" = Some (Init.Str key)
    | None =>
        Init.run builtins env rest = (Raise (KeyError "OPENAI_API_KEY"), ns) ∧
        ns !! "OPENAI_API_KEY" = None
    end.
Proof.
  intros Hos. unfold Init.run, Init.module_body.
  repeat (rewrite bind_import_as || rewrite bind_from_import).
  rewrite (bind_load_global "st" (Init.Module "streamlit")) by (by vm_compute).
  rewrite bind_secrets_getitem.
  destruct (Init.secrets env !! "OPENAI_API_KEY") as [key|].
  - rewrite bind_store, bind_load_missing by (done || by vm_compute).
    eexists. split; [|split; [reflexivity|]]; by vm_compute.
  - eexists. split; [|split; [reflexivity|]]; by vm_compute.
Qed.

End InitSteps.

(** C2 (amended): the module reads the key from the secrets store and then
    asks [os.getenv] for it, and [os] is neither imported nor a builtin.  So
    in every execution in which the secrets store holds the key the
    initialisation raises a NameError for [os]; when the store has no key
    the lookup itself raises first.  In every execution the initialisation
    raises before the client is built and before the rest of the module
    runs, so that no request ever uses the key of the secrets store. *)
Theorem init_never_completes (builtins : gset string) (env : Init.environment)
    (rest : Init.I unit) :
  "os" ∉ builtins →
  (∀ key,
     Init.secrets env !! "OPENAI_API_KEY" = Some key →
     ∃ ns, Init.run builtins env rest = (Raise (NameError "os"), ns) ∧
           ns !! "OPENAI_API_KEY" = Some (Init.Str key) ∧
           ns !! "client" = None) ∧
  (Init.secrets env !! "OPENAI_API_KEY" = None →
     ∃ ns, Init.run builtins env rest = (Raise (KeyError "OPENAI_API_KEY"), ns) ∧
           ns !! "client" = None) ∧
  (∃ e ns, Init.run builtins env rest = (Raise e, ns) ∧ ns !! "client" = None).
Proof.
  intros (ns & Hclient & Hrun)%(init_run builtins env rest).
  destruct (Init.secrets env !! "OPENAI_API_KEY") as [key|];
    destruct Hrun as [Hrun Hkey]; split_and!; try done; eauto.
  intros ? [= <-]. eauto.
Qed.

Lemma init_never_completes_example :
  ∃ ns,
    Init.run {[ "print"; "len" ]}
      (Init.Environment {[ "OPENAI_API_KEY" := "sk-secret" ]}
                        {[ "OPENAI_API_KEY" := "sk-env" ]})
      (mret ())
    = (Raise (NameError "os"), ns) ∧
    ns !! "OPENAI_API_KEY" = Some (Init.Str "sk-secret") ∧
    ns !! "client" = None.
Proof.
  destruct (init_never_completes {[ "print"; "len" ]}
              (Init.Environment {[ "OPENAI_API_KEY" := "sk-secret" ]}
                                {[ "OPENAI_API_KEY" := "sk-env" ]})
              (mret ())) as [H _].
  - apply (bool_decide_unpack _). vm_compute. exact I.
  - apply (H "sk-secret"). reflexivity.
Defined.

(** C2, as stated, fails: with no key in the secrets store the
    initialisation raises at line 14, and the exception is not a
    NameError. *)
Lemma init_without_secret :
  (Init.run {[ "print"; "len" ]} (Init.Environment ∅ ∅) (mret ())).1
  = Raise (KeyError "OPENAI_API_KEY").
Proof. reflexivity. Qed.

(** * Further properties *)

(** ** Score extraction: case and long numbers *)

Lemma decimal_zeros_range :
  Forall (fun zero => zero = 48 ∨ 1632 ≤ zero)%N decimal_zeros.
Proof. apply (bool_decide_unpack _). vm_compute. exact I. Qed.

(** Between the digits of ASCII and those of Arabic no character is a
    digit; the letters of ASCII are there. *)
Lemma is_digit_gap x : (58 ≤ x < 1632)%N → is_digit x = false.
Proof.
  intros Hx. destruct (is_digit x) eqn:E; [exfalso|done].
  unfold is_digit in E. apply bool_decide_eq_true in E as [v Hv].
  unfold digit_value in Hv. apply fmap_Some in Hv as (zero & Hfind & _).
  apply List.find_some in Hfind as [Hin Hb].
  pose proof decimal_zeros_range as Hr. rewrite Forall_forall in Hr.
  apply list_elem_of_In in Hin. specialize (Hr _ Hin).
  apply andb_true_iff in Hb as [H1%N.leb_le H2%N.ltb_lt]. lia.
Qed.

Lemma ascii_fold_cases x :
  (65 ≤ x ≤ 90 ∧ ascii_fold x = x + 32)%N ∨
  (¬ (65 ≤ x ≤ 90)%N ∧ ascii_fold x = x).
Proof.
  unfold ascii_fold.
  destruct (N.leb_spec 65 x), (N.leb_spec x 90); simpl; lia.
Qed.

Lemma is_digit_fold x : is_digit (ascii_fold x) = is_digit x.
Proof.
  destruct (ascii_fold_cases x) as [[Hx ->]|[_ ->]]; [|done].
  by rewrite !is_digit_gap by lia.
Qed.

Lemma ascii_fold_digit x : is_digit x = true → ascii_fold x = x.
Proof.
  intros Hd. destruct (ascii_fold_cases x) as [[Hx _]|[_ ->]]; [|done].
  rewrite is_digit_gap in Hd by lia. done.
Qed.

Lemma ascii_fold_LF x : ascii_fold x = LF ↔ x = LF.
Proof. unfold LF. destruct (ascii_fold_cases x) as [[Hx ->]|[_ ->]]; lia. Qed.

(** [re.IGNORECASE] does not tell a capital letter of ASCII from its small
    letter, in the text either. *)
Lemma ignorecase_variants_fold l x :
  ascii_fold x ∈ Re.ignorecase_variants l ↔ x ∈ Re.ignorecase_variants l.
Proof.
  unfold Re.ignorecase_variants. cbv zeta. generalize (N_of_ascii l) as n. intros n.
  change (if ((65 <=? n) && (n <=? 90))%N then (n + 32)%N else n)
    with (ascii_fold n).
  destruct (ascii_fold_cases x) as [[Hx ->]|[_ ->]]; [|done].
  destruct (ascii_fold_cases n) as [[Hn ->]|[Hn ->]];
    repeat match goal with
           | |- context [(?a <=? ?b)%N] => destruct (N.leb_spec a b)
           | |- context [(?a =? ?b)%N] => destruct (N.eqb_spec a b)
           end; cbn [andb app]; rewrite ?elem_of_cons, ?elem_of_nil; lia.
Qed.

Lemma strip_fold (w : text) (s : codes) :
  strip true w (ascii_fold <$> s)
  = (fun t : codes => ascii_fold <$> t) <$> strip true w s.
Proof.
  revert s. induction w as [|l w IH]; intros [|x s]; simpl; try done.
  unfold Re.in_class.
  rewrite (bool_decide_ext _ _ (ignorecase_variants_fold l x)).
  by case_bool_decide.
Qed.

Lemma leading_digits_fold (s : codes) :
  leading_digits (ascii_fold <$> s) = leading_digits s.
Proof.
  destruct s as [|d1 [|d2 r]]; simpl; [done|..]; rewrite !is_digit_fold;
    destruct (is_digit d1) eqn:E1; try done;
    rewrite (ascii_fold_digit d1) by done; [done|].
  destruct (is_digit d2) eqn:E2; [|done]. by rewrite (ascii_fold_digit d2).
Qed.

Lemma lazy_scan_fold (s : codes) : lazy_scan (ascii_fold <$> s) = lazy_scan s.
Proof.
  induction s as [|x s IH]; [done|].
  rewrite fmap_cons. cbn [lazy_scan].
  rewrite <- (fmap_cons ascii_fold x s), leading_digits_fold.
  destruct (leading_digits (x :: s)); [done|]. rewrite IH.
  by rewrite (bool_decide_ext _ _ (ascii_fold_LF x)).
Qed.

Lemma match_here_fold (s : codes) : match_here (ascii_fold <$> s) = match_here s.
Proof.
  unfold match_here, IGNORECASE. rewrite strip_fold.
  destruct (strip true (chars "score") s) as [s'|]; simpl; [|done].
  apply lazy_scan_fold.
Qed.

Lemma first_match_unfold s :
  first_match s =
  match match_here s with
  | Some (k, g) => Some (0%nat, k, g)
  | None =>
      match s with
      | [] => None
      | _ :: s' => '(i, k, g) ← first_match s'; Some (S i, k, g)
      end
  end.
Proof. by destruct s. Qed.

Lemma first_match_fold (s : codes) : first_match (ascii_fold <$> s) = first_match s.
Proof.
  induction s as [|x s IH]; [reflexivity|].
  rewrite (first_match_unfold (x :: s)),
    (first_match_unfold (ascii_fold <$> x :: s)), match_here_fold.
  destruct (match_here (x :: s)); [done|]. rewrite fmap_cons. by rewrite IH.
Qed.

(** X1: the case of the letters of the reply plays no part in the score:
    two replies that differ only in the case of letters of ASCII yield the
    same score, present or absent. *)
Theorem extract_score_any_case (content content' : string) :
  same_up_to_case (codepoints content) (codepoints content') →
  extract_score content = extract_score content'.
Proof.
  unfold same_up_to_case. intros Hsame. rewrite !extract_score_first_match.
  by rewrite <- (first_match_fold (codepoints content)), Hsame, first_match_fold.
Qed.

Lemma extract_score_any_case_example :
  extract_score "OVERALL SCORE: 7/20" = extract_score "Overall score: 7/20".
Proof.
  apply (extract_score_any_case "OVERALL SCORE: 7/20" "Overall score: 7/20").
  vm_compute. reflexivity.
Defined.

(** X2: of a number written after "score" only the first two digits count:
    whatever follows them, further digits included, is not read.  So a reply
    that says "score: 100" gets the score 10. *)
Theorem two_digits_only (content : string) (pre word mid post : codes)
    (d1 d2 : N) (v1 v2 : Z) :
  codepoints content = pre ++ word ++ mid ++ d1 :: d2 :: post →
  (∀ i, (i < length pre)%nat → ¬ score_line (drop i (codepoints content))) →
  word_ci "score" word →
  Forall (fun x => x ≠ LF ∧ is_digit x = false) mid →
  digit_value d1 = Some v1 →
  digit_value d2 = Some v2 →
  extract_score content = Return (Some (Z.min (10 * v1 + v2) 20)).
Proof.
  intros Hcontent Hleft Hword Hmid H1 H2.
  assert (is_digit d1 = true) as E1
    by (unfold is_digit; rewrite H1; by apply bool_decide_eq_true).
  assert (is_digit d2 = true) as E2
    by (unfold is_digit; rewrite H2; by apply bool_decide_eq_true).
  destruct (is_digit_value _ E1) as (? & ? & ?),
           (is_digit_value _ E2) as (? & ? & ?).
  simplify_eq.
  apply extract_score_Some. exists [d1; d2], (10 * v1 + v2). split_and!.
  - rewrite Hcontent in Hleft |- *.
    exists pre, word, mid, post. split_and!; try done.
    right. by exists d1, d2.
  - unfold int, int_digits. simpl. rewrite H1. simpl. by rewrite H2.
  - lia.
Qed.

Lemma two_digits_only_example :
  extract_score "score: 100" = Return (Some 10).
Proof.
  apply (two_digits_only "score: 100" [] (codepoints "score") (codepoints ": ")
           (codepoints "0") 49 48 1 0).
  - vm_compute. reflexivity.
  - intros i Hi. cbn [length] in Hi. lia.
  - apply word_ci_score.
  - repeat constructor; done.
  - vm_compute. reflexivity.
  - vm_compute. reflexivity.
Defined.

(** ** The evaluator: what the two mappings hold *)

Lemma dict_get_set {V} k k' (v : V) d :
  Dict.get k' (Dict.set k v d) =
  if bool_decide (k = k') then Some v else Dict.get k' d.
Proof.
  induction d as [|[k0 v0] d IH]; simpl.
  - by case_bool_decide.
  - destruct (decide (k0 = k)) as [->|Hne].
    + rewrite bool_decide_true by done. simpl. by case_bool_decide.
    + rewrite bool_decide_false by done. simpl. rewrite IH.
      repeat case_bool_decide; congruence.
Qed.

Lemma dict_keys_set_NoDup {V} k (v : V) d :
  NoDup (Dict.keys d) → NoDup (Dict.keys (Dict.set k v d)).
Proof.
  intros Hd. rewrite dict_keys_set. case_bool_decide as Hin; [done|].
  apply NoDup_app. split_and!; [done| |apply NoDup_singleton].
  intros x Hx ->%list_elem_of_singleton. done.
Qed.

Lemma valid_scores_keys_sublist scores :
  Dict.keys (valid_scores scores) `sublist_of` Dict.keys scores.
Proof.
  unfold valid_scores, Dict.keys, Dict.items.
  induction scores as [|[k [v|]] scores IH]; csimpl.
  - constructor.
  - by apply sublist_skip.
  - by apply sublist_cons.
Qed.

Section EvaluatorMore.

Context {W : Type}.
Variable chat_completions_create :
  string → list (string * string) → W → result (list (option string)) * W.

(** What one more loop invariant gives: the page is left alone, the keys
    stay distinct, and each score belongs to the analysis stored under the
    same party. *)
Lemma evaluate_loop_frame parties country pa ps (st : state W) r st' :
  evaluate_loop chat_completions_create parties country pa ps st = (r, st') →
  page st' = page st.
Proof.
  revert pa ps st. induction parties as [|party parties IH]; intros pa ps st.
  - by intros [= <- <-].
  - rewrite evaluate_loop_cons.
    destruct (chat_completions_create _ _ _) as [[choices|e] w];
      [|by intros [= <- <-]].
    destruct (first_content choices) as [content|e]; [|by intros [= <- <-]].
    destruct (extract_score content) as [score|e]; [|by intros [= <- <-]].
    by intros ->%IH.
Qed.

Lemma evaluate_loop_entries parties country pa ps (st : state W) pa' ps' st' :
  evaluate_loop chat_completions_create parties country pa ps st
    = (Return (pa', ps'), st') →
  (NoDup (Dict.keys pa) → NoDup (Dict.keys pa')) ∧
  ((∀ party content, Dict.get party pa = Some content →
      ∃ score, Dict.get party ps = Some score ∧
               extract_score content = Return score) →
   ∀ party content, Dict.get party pa' = Some content →
      ∃ score, Dict.get party ps' = Some score ∧
               extract_score content = Return score) ∧
  (NoDup parties → (∀ party, party ∈ parties → party ∉ Dict.keys pa) →
   Dict.keys pa' = Dict.keys pa ++ parties).
Proof.
  revert pa ps st. induction parties as [|party parties IH]; intros pa ps st.
  - intros [= <- <- <-]. split_and!; [done..|]. intros _ _. by rewrite app_nil_r.
  - rewrite evaluate_loop_cons.
    destruct (chat_completions_create _ _ _) as [[choices|e] w]; [|done].
    destruct (first_content choices) as [content|e]; [|done].
    destruct (extract_score content) as [score|e] eqn:Hscore; [|done].
    intros (Hnodup & Hentries & Hkeys)%IH. split_and!.
    + intros Hpa. by apply Hnodup, dict_keys_set_NoDup.
    + intros Hinv. apply Hentries. intros p c. rewrite !dict_get_set.
      case_bool_decide; [|by apply Hinv]. intros [= <-]. eauto.
    + intros [Hparty Hparties]%NoDup_cons Hfresh.
      rewrite Hkeys, dict_keys_set; [| done |].
      * rewrite bool_decide_false by (apply Hfresh; by left).
        by rewrite <- (assoc_L app).
      * intros p Hp. rewrite dict_keys_set.
        rewrite bool_decide_false by (apply Hfresh; by left).
        intros [?| ->%list_elem_of_singleton]%elem_of_app; [|done].
        by apply (Hfresh p); [right|].
Qed.

(** X3: [evaluate_parties] shows nothing: whether it returns or raises, the
    page is as it was. *)
Theorem evaluate_parties_shows_nothing parties country (st st' : state W) r :
  evaluate_parties chat_completions_create parties country st = (r, st') →
  page st' = page st.
Proof. apply evaluate_loop_frame. Qed.

(** X4: in the mappings returned, the score of a party is the one extracted
    from the analysis stored for that same party, also when a party occurs
    more than once in the list (both entries are then those of its last
    reply). *)
Theorem score_belongs_to_analysis parties country (st st' : state W) pa ps
    party content :
  evaluate_parties chat_completions_create parties country st
    = (Return (pa, ps), st') →
  Dict.get party pa = Some content →
  ∃ score, Dict.get party ps = Some score ∧ extract_score content = Return score.
Proof.
  intros (_ & Hentries & _)%evaluate_loop_entries. by apply Hentries.
Qed.

Lemma evaluate_parties_keys parties country (st st' : state W) pa ps :
  evaluate_parties chat_completions_create parties country st
    = (Return (pa, ps), st') →
  NoDup (Dict.keys pa) ∧
  (length (Dict.keys pa) ≤ length parties)%nat ∧
  (NoDup parties → Dict.keys pa = parties ∧ Dict.keys ps = parties).
Proof.
  intros Hrun. pose proof Hrun as (Hk & Hin & _)%evaluate_loop_invariant; [|done].
  apply evaluate_loop_entries in Hrun as (Hnodup & _ & Hkeys).
  assert (NoDup (Dict.keys pa)) as Hpa by (apply Hnodup; constructor).
  split_and!; [done| |].
  - apply submseteq_length, NoDup_submseteq; [done|].
    intros p Hp%Hin. destruct Hp as [Hp|Hp]; [by apply elem_of_nil in Hp|done].
  - intros Hparties. rewrite <- Hk, Hkeys; [done..|].
    intros p _ Hp. by apply elem_of_nil in Hp.
Qed.

(** X5: the keys of the mappings returned are distinct, and there are no
    more of them than parties in the list; when the parties of the list are
    distinct, the keys are the list itself, in its order. *)
Theorem keys_follow_parties parties country (st st' : state W) pa ps :
  evaluate_parties chat_completions_create parties country st
    = (Return (pa, ps), st') →
  NoDup (Dict.keys pa) ∧
  (length (Dict.keys pa) ≤ length parties)%nat ∧
  (NoDup parties → Dict.keys pa = parties ∧ Dict.keys ps = parties).
Proof. apply evaluate_parties_keys. Qed.

(** X6: the extraction of the score cannot make the evaluation fail: with a
    service that answers every request with at least one choice that has a
    text, [evaluate_parties] returns its two mappings. *)
Theorem evaluation_returns parties country (st : state W) :
  (∀ party w, ∃ content others w',
     chat_completions_create "gpt-4-turbo" (messages party country) w
     = (Return (Some content :: others), w')) →
  ∃ pa ps st',
    evaluate_parties chat_completions_create parties country st
    = (Return (pa, ps), st').
Proof.
  intros Hservice. unfold evaluate_parties.
  generalize (@Dict.empty string) (@Dict.empty (option Z)). revert st.
  induction parties as [|party parties IH]; intros st pa ps; [by eexists _, _, _|].
  rewrite evaluate_loop_cons.
  destruct (Hservice party (world st)) as (content & others & w' & ->). simpl.
  destruct (extract_score_cases content)
    as [[_ ->]|(i & k & g & n & _ & _ & _ & ->)]; apply IH.
Qed.

(** X7: a reply that cannot be read stops the evaluation like a failed
    call: with no choice in the reply the evaluation raises an IndexError,
    with a first choice without text a TypeError; no mapping is returned and
    the parties that follow are not evaluated. *)
Theorem unreadable_reply_aborts pre party post country (st st1 : state W)
    pa ps choices w2 :
  evaluate_parties chat_completions_create pre country st
    = (Return (pa, ps), st1) →
  chat_completions_create "gpt-4-turbo" (messages party country) (world st1)
    = (Return choices, w2) →
  (choices = [] →
   evaluate_parties chat_completions_create (pre ++ party :: post) country st
   = (Raise (IndexError "list index out of range"), State w2 (page st1))) ∧
  (∀ others, choices = None :: others →
   evaluate_parties chat_completions_create (pre ++ party :: post) country st
   = (Raise (TypeError "expected string or bytes-like object"),
      State w2 (page st1))).
Proof.
  unfold evaluate_parties. intros Hpre Hcall.
  rewrite evaluate_loop_app, Hpre, evaluate_loop_cons, Hcall.
  split; [by intros ->|by intros others ->].
Qed.

(** X8: the chart fits its axis: the bars drawn from the scores that
    [evaluate_parties] returns have heights in [0, 20], the range given to
    [set_ylim]; their names are parties of the list, in the order of the
    mapping, and there are no more bars than parties. *)
Theorem bars_fit_the_axis parties country (st st' : state W) pa ps :
  evaluate_parties chat_completions_create parties country st
    = (Return (pa, ps), st') →
  let fig := score_figure (valid_scores ps) in
  ylim fig = (0, 20) ∧
  (∀ party v, (party, v) ∈ bars fig → 0 ≤ v ≤ 20 ∧ party ∈ parties) ∧
  (bars fig).*1 `sublist_of` Dict.keys ps ∧
  xticklabels fig = (bars fig).*1 ∧
  (length (bars fig) ≤ length parties)%nat.
Proof.
  intros Hrun fig.
  pose proof (evaluate_parties_keys _ _ _ _ _ _ Hrun) as (_ & Hlen & _).
  pose proof Hrun as (Hk & Hin & Hrange)%evaluate_loop_invariant; [|done].
  specialize (Hrange ltac:(constructor)).
  assert (bars fig = valid_scores ps) as Hbars
    by (unfold fig, score_figure, Dict.keys, Dict.values; simpl; apply zip_fst_snd).
  rewrite Hbars. split_and!; [done| | |done|].
  - intros party v Hv%valid_scores_elem. split.
    + rewrite Forall_forall in Hrange. by apply (Hrange _ Hv).
    + assert (party ∈ Dict.keys pa) as Hp.
      { rewrite Hk. unfold Dict.keys. apply list_elem_of_fmap.
        by exists (party, Some v). }
      apply Hin in Hp as [Hp|Hp]; [by apply elem_of_nil in Hp|done].
  - apply valid_scores_keys_sublist.
  - etrans; [|exact Hlen]. rewrite Hk.
    rewrite <- (length_fmap fst (valid_scores ps)).
    apply sublist_length, valid_scores_keys_sublist.
Qed.

End EvaluatorMore.

Lemma score_belongs_to_analysis_example :
  ∃ score,
    Dict.get "Green Party" [("Green Party", Some 9)] = Some score ∧
    extract_score "Now the score is 9." = Return score.
Proof.
  apply (score_belongs_to_analysis
           (scripted_chat [Return [Some "Score: 14"];
                           Return [Some "Now the score is 9."]])
           ["Green Party"; "Green Party"] "Canada"
           (State 0%nat []) (State 2%nat [])
           [("Green Party", "Now the score is 9.")] [("Green Party", Some 9)]
           "Green Party" "Now the score is 9."); reflexivity.
Defined.

Lemma evaluate_parties_shows_nothing_example :
  page (State 1%nat [Spinner "Evaluating each party using AI..."])
  = page (State 0%nat [Spinner "Evaluating each party using AI..."]).
Proof.
  apply (evaluate_parties_shows_nothing
           (scripted_chat [Raise (ServiceError "rate limit")])
           ["Green Party"] "Canada"
           (State 0%nat [Spinner "Evaluating each party using AI..."])
           (State 1%nat [Spinner "Evaluating each party using AI..."])
           (Raise (ServiceError "rate limit"))).
  reflexivity.
Defined.

Lemma keys_follow_parties_example :
  NoDup (Dict.keys [("Liberal Party", "Score: 14"); ("Green Party", "None")]) ∧
  (length (Dict.keys [("Liberal Party", "Score: 14"); ("Green Party", "None")])
   ≤ length ["Liberal Party"; "Green Party"; "Liberal Party"])%nat ∧
  (NoDup ["Liberal Party"; "Green Party"; "Liberal Party"] →
   Dict.keys [("Liberal Party", "Score: 14"); ("Green Party", "None")]
   = ["Liberal Party"; "Green Party"; "Liberal Party"] ∧
   Dict.keys [("Liberal Party", Some 14); ("Green Party", None)]
   = ["Liberal Party"; "Green Party"; "Liberal Party"]).
Proof.
  apply (keys_follow_parties
           (scripted_chat [Return [Some "Score: 2"]; Return [Some "None"];
                           Return [Some "Score: 14"]])
           ["Liberal Party"; "Green Party"; "Liberal Party"] "Canada"
           (State 0%nat []) (State 3%nat [])).
  reflexivity.
Defined.

Lemma evaluation_returns_example :
  ∃ pa ps st',
    evaluate_parties (fun _ _ (w : nat) => (Return [Some "Score: 7"], S w))
      ["Liberal Party"; "Green Party"] "Canada" (State 0%nat [])
    = (Return (pa, ps), st').
Proof.
  apply (evaluation_returns (fun _ _ (w : nat) => (Return [Some "Score: 7"], S w))).
  intros party w. by exists "Score: 7", [], (S w).
Defined.

Lemma unreadable_reply_aborts_example :
  evaluate_parties (scripted_chat [Return [Some "Score: 14"]; Return []])
    (["Liberal Party"] ++ "Green Party" :: ["Labour Party"]) "Canada"
    (State 0%nat [])
  = (Raise (IndexError "list index out of range"), State 2%nat []).
Proof.
  apply (proj1 (unreadable_reply_aborts
                  (scripted_chat [Return [Some "Score: 14"]; Return []])
                  ["Liberal Party"] "Green Party" ["Labour Party"] "Canada"
                  (State 0%nat []) (State 1%nat [])
                  [("Liberal Party", "Score: 14")] [("Liberal Party", Some 14)]
                  [] 2%nat eq_refl eq_refl)).
  reflexivity.
Defined.

Lemma bars_fit_the_axis_example :
  let fig := score_figure (valid_scores [("Liberal Party", Some 20)]) in
  ylim fig = (0, 20) ∧
  (∀ party v, (party, v) ∈ bars fig → 0 ≤ v ≤ 20 ∧ party ∈ ["Liberal Party"]) ∧
  (bars fig).*1 `sublist_of` Dict.keys [("Liberal Party", Some 20)] ∧
  xticklabels fig = (bars fig).*1 ∧
  (length (bars fig) ≤ length ["Liberal Party"])%nat.
Proof.
  apply (bars_fit_the_axis (scripted_chat [Return [Some "Score: 35"]])
           ["Liberal Party"] "Canada" (State 0%nat []) (State 1%nat [])
           [("Liberal Party", "Score: 35")]).
  reflexivity.
Defined.

(** ** The range of a stored score *)

(** The score of a text that the pattern matches: the number of group 1,
    clamped. *)
Lemma search_extract_score content m :
  Re.search IGNORECASE score_pattern (codepoints content) = Some m →
  ∃ g raw,
    Re.group (codepoints content) m 1 = Some g ∧ int g = Return raw ∧
    0 ≤ raw ≤ 99 ∧
    extract_score content = Return (Some (Z.min (Z.max raw 0) 20)).
Proof.
  intros Hsearch.
  destruct (search_score_match _ _ Hsearch) as (g & Hgroup & Hmatch).
  pose proof Hmatch as (_ & _ & _ & post & _ & _ & _ & Hrun & _).
  destruct (int_digit_run _ _ Hrun) as (raw & Hraw & Hrange).
  exists g, raw. repeat split; try done; try lia.
  unfold extract_score. by rewrite Hsearch, Hgroup, Hraw.
Qed.

(** C3: when the pattern matches the analysis text, a score is stored, and
    it lies in [0, 20]: it is the number matched by the group of the pattern
    when that number is at most 20, and 20 when the number is above 20; it
    would be 0 for a number below 0, which no matched number is (the group
    holds one or two digits and no sign).  So in the mappings returned by
    [evaluate_parties], a party whose analysis the pattern matches has a
    present score in [0, 20], and every present score lies in [0, 20]. *)
Theorem stored_score_range :
  (∀ content m,
     Re.search IGNORECASE score_pattern (codepoints content) = Some m →
     ∃ g raw v,
       Re.group (codepoints content) m 1 = Some g ∧ int g = Return raw ∧
       extract_score content = Return (Some v) ∧
       v = Z.min (Z.max raw 0) 20 ∧ 0 ≤ v ≤ 20 ∧
       (20 < raw → v = 20) ∧ (raw < 0 → v = 0) ∧ (0 ≤ raw ≤ 20 → v = raw) ∧
       0 ≤ raw ≤ 99) ∧
  (∀ W chat parties country (st st' : state W) pa ps party content m,
     evaluate_parties chat parties country st = (Return (pa, ps), st') →
     Dict.get party pa = Some content →
     Re.search IGNORECASE score_pattern (codepoints content) = Some m →
     ∃ g raw v,
       Re.group (codepoints content) m 1 = Some g ∧ int g = Return raw ∧
       Dict.get party ps = Some (Some v) ∧
       v = Z.min (Z.max raw 0) 20 ∧ 0 ≤ v ≤ 20) ∧
  (∀ W chat parties country (st st' : state W) pa ps party v,
     evaluate_parties chat parties country st = (Return (pa, ps), st') →
     Dict.get party ps = Some (Some v) → 0 ≤ v ≤ 20).
Proof.
  split_and!.
  - intros content m (g & raw & Hg & Hraw & Hrange & Hscore)%search_extract_score.
    exists g, raw, (Z.min (Z.max raw 0) 20). split_and!; try done; lia.
  - intros W chat parties country st st' pa ps party content m Hrun Hpa
      (g & raw & Hg & Hraw & Hrange & Hscore)%search_extract_score.
    apply evaluate_loop_entries in Hrun as (_ & Hentries & _).
    destruct (Hentries ltac:(done) party content Hpa) as (score & Hps & Hs).
    exists g, raw, (Z.min (Z.max raw 0) 20).
    split_and!; try done; [congruence|lia..].
  - intros W chat parties country st st' pa ps party v.
    apply evaluate_parties_range.
Qed.

(** The text "score: 27": the pattern matches with "27" in its group, and
    the score stored is 20, by [extract_score] and in a run of the
    evaluator. *)
Lemma stored_score_range_27 :
  Re.search IGNORECASE score_pattern (codepoints "score: 27")
  = Some (group_marks 7 [50; 55]%N ∅) ∧
  (∃ g raw v,
     Re.group (codepoints "score: 27") (group_marks 7 [50; 55]%N ∅) 1 = Some g ∧
     int g = Return raw ∧
     extract_score "score: 27" = Return (Some v) ∧
     v = Z.min (Z.max raw 0) 20 ∧ 0 ≤ v ≤ 20 ∧
     (20 < raw → v = 20) ∧ (raw < 0 → v = 0) ∧ (0 ≤ raw ≤ 20 → v = raw) ∧
     0 ≤ raw ≤ 99) ∧
  (∃ g raw v,
     Re.group (codepoints "score: 27") (group_marks 7 [50; 55]%N ∅) 1 = Some g ∧
     int g = Return raw ∧
     Dict.get "Green Party" [("Green Party", Some 20)] = Some (Some v) ∧
     v = Z.min (Z.max raw 0) 20 ∧ 0 ≤ v ≤ 20) ∧
  0 ≤ 20 ≤ 20.
Proof.
  destruct stored_score_range as (Htext & Hparty & Hrange).
  split; [reflexivity|]. split; [|split].
  - apply Htext. reflexivity.
  - apply (Hparty nat (scripted_chat [Return [Some "score: 27"]])
             ["Green Party"] "Canada" (State 0%nat []) (State 1%nat [])
             [("Green Party", "score: 27")] [("Green Party", Some 20)]
             "Green Party" "score: 27"); reflexivity.
  - apply (Hrange nat (scripted_chat [Return [Some "score: 27"]])
             ["Green Party"] "Canada" (State 0%nat []) (State 1%nat [])
             [("Green Party", "score: 27")] [("Green Party", Some 20)]
             "Green Party" 20); reflexivity.
Defined.

(** ** The flag table and the page *)

Lemma flag_urls_snoc countries name alpha_2 :
  flag_urls (countries ++ [(name, alpha_2)])
  = <[name := flag_url alpha_2]> (flag_urls countries).
Proof. unfold flag_urls. by rewrite foldl_snoc. Qed.

Lemma flag_urls_entries (countries : list (string * string)) (country : string) :
  (flag_urls countries !! country = None ↔ country ∉ countries.*1) ∧
  (∀ url, flag_urls countries !! country = Some url →
          ∃ alpha_2, (country, alpha_2) ∈ countries ∧ url = flag_url alpha_2) ∧
  (NoDup countries.*1 →
   ∀ alpha_2, (country, alpha_2) ∈ countries →
              flag_urls countries !! country = Some (flag_url alpha_2)).
Proof.
  induction countries as [|[name a2] countries IH] using rev_ind.
  - split_and!.
    + split; [intros _ H; by apply elem_of_nil in H|done].
    + intros url. unfold flag_urls. simpl. by rewrite lookup_empty.
    + intros _ a2 H. by apply elem_of_nil in H.
  - destruct IH as (IHnone & IHsome & IHdistinct).
    rewrite flag_urls_snoc, fmap_app. csimpl.
    destruct (decide (name = country)) as [->|Hne].
    + rewrite lookup_insert_eq. split_and!.
      * split; [done|]. intros H. destruct H. apply elem_of_app. right. by left.
      * intros url [= <-]. exists a2. split; [|done].
        apply elem_of_app. right. by left.
      * intros [_ [Hfresh _]]%NoDup_app a2' [Hin|Hin]%elem_of_app.
        -- destruct (Hfresh country); [|by left].
           apply list_elem_of_fmap. by exists (country, a2').
        -- apply list_elem_of_singleton in Hin. by simplify_eq.
    + rewrite lookup_insert_ne by done. split_and!.
      * rewrite IHnone, elem_of_app, list_elem_of_singleton. intuition congruence.
      * intros url (a2' & Hin & ->)%IHsome. exists a2'. split; [|done].
        apply elem_of_app. by left.
      * intros [Hnodup _]%NoDup_app a2' [Hin|Hin]%elem_of_app.
        -- by apply IHdistinct.
        -- apply list_elem_of_singleton in Hin. by simplify_eq.
Qed.

(** X9: the flag table has an entry for exactly the names of
    [pycountry.countries]; the entry of a name is the flag URL made of the
    lower-case alpha-2 code of a country of that name (of the country, when
    the names are distinct). *)
Theorem flag_urls_lookup (countries : list (string * string)) (country : string) :
  (flag_urls countries !! country = None ↔ country ∉ countries.*1) ∧
  (∀ url, flag_urls countries !! country = Some url →
          ∃ alpha_2, (country, alpha_2) ∈ countries ∧ url = flag_url alpha_2) ∧
  (NoDup countries.*1 →
   ∀ alpha_2, (country, alpha_2) ∈ countries →
              flag_urls countries !! country = Some (flag_url alpha_2)).
Proof. apply flag_urls_entries. Qed.

Lemma flag_urls_lookup_canada :
  flag_urls [("Canada", "CA"); ("France", "FR")] !! "Canada"
  = Some "https://flagcdn.com/w320/ca.png".
Proof.
  change (flag_urls [("Canada", "CA"); ("France", "FR")] !! "Canada"
          = Some (flag_url "CA")).
  apply (proj2 (proj2 (flag_urls_lookup [("Canada", "CA"); ("France", "FR")]
                         "Canada"))).
  - apply (bool_decide_unpack _). vm_compute. exact I.
  - by left.
Defined.

Section PageMore.

Context {W : Type}.
Variable requests_get : string → W → result response * W.
Variable BeautifulSoup : string → list node.
Variable chat_completions_create :
  string → list (string * string) → W → result (list (option string)) * W.
Variable countries : list (string * string).
Variable matplotlib_layout : figure → W → result unit * W.

Lemma show_results_run items (st : state W) :
  show_results items st
  = (Return (), State (world st) (page st ++ results_page items)).
Proof.
  unfold results_page, Dict.items. revert st.
  induction items as [|[party analysis] items IH]; intros [w p].
  - simpl. by rewrite app_nil_r.
  - cbn [show_results]. unfold mbind, M_bind. rewrite !show_run. simpl.
    rewrite IH. simpl. by rewrite <- !(assoc_L app).
Qed.

Lemma report_run parties country (st : state W) :
  report chat_completions_create matplotlib_layout parties country st =
  match evaluate_parties chat_completions_create parties country
          (State (world st) (page st ++ found_page parties)) with
  | (Return (results, scores), st2) =>
      show_scores matplotlib_layout scores
        (State (world st2)
           (page st2 ++ [Header "🔍 Results"] ++ results_page results))
  | (Raise e, st2) => (Raise e, st2)
  end.
Proof.
  unfold report, spinner, found_page, mbind, M_bind. rewrite !show_run. simpl.
  rewrite <- !(assoc_L app). simpl.
  destruct (evaluate_parties _ _ _ _) as [[[results scores]|e] st2]; [|done].
  rewrite show_results_run. simpl. by rewrite <- !(assoc_L app).
Qed.

(** X10: without a click on the button [main] asks nothing of the outside:
    it shows the front page and stops.  On that page the flag of the country
    is shown exactly when the name typed is one of the table, with the name
    as caption; any other name gets the warning. *)
Theorem idle_page country (st : state W) :
  main requests_get BeautifulSoup chat_completions_create countries
    matplotlib_layout country false st
  = (Return (), State (world st) (page st ++ front_page countries country)) ∧
  length (front_page countries country) = 9%nat ∧
  ((∃ alpha_2, (country, alpha_2) ∈ countries ∧
               (front_page countries country !! 7%nat)
               = Some (Image (flag_url alpha_2) (Some 100)
                             (Some (country +:+ " Flag")) false)) ∨
   ((country ∉ countries.*1) ∧
    (front_page countries country !! 7%nat)
    = Some (Warning "Flag not available for this country."))).
Proof.
  rewrite main_run. split_and!; [done..|].
  destruct (flag_urls_entries countries country) as (Hnone & Hsome & _).
  unfold front_page. simpl.
  destruct (flag_urls countries !! country) as [url|] eqn:Hurl.
  - left. destruct (Hsome url eq_refl) as (a2 & Hin & ->). eauto.
  - right. split; [by apply Hnone|done].
Qed.

(** X11: when the evaluation raises, the action ends with that exception
    and the page stops at the announcement made before the evaluation: the
    number of parties, their list and the spinner; no result, no chart and
    no message about the failure follow. *)
Theorem report_stops_at_failure parties country (st st2 : state W) e :
  evaluate_parties chat_completions_create parties country
    (State (world st) (page st ++ found_page parties)) = (Raise e, st2) →
  report chat_completions_create matplotlib_layout parties country st
  = (Raise e, State (world st2) (page st ++ found_page parties)).
Proof.
  intros Hrun. rewrite report_run, Hrun.
  apply evaluate_loop_frame in Hrun. destruct st2 as [w2 p2]. simpl in *.
  by subst.
Qed.

(** X12: when the evaluation returns, the page gets, after the
    announcement, the results header, then for each party of the analysis
    mapping, in its order, the name as subheader followed by the analysis,
    then the score header.  With no present score the warning follows and
    the action is complete.  Otherwise the figure of the present scores is
    handed to matplotlib: when it is laid out the chart follows on the page
    and the action is complete; when matplotlib raises, the action ends with
    that exception and the page stops at the score header. *)
Theorem report_layout parties country (st st2 : state W) results scores :
  evaluate_parties chat_completions_create parties country
    (State (world st) (page st ++ found_page parties))
    = (Return (results, scores), st2) →
  let shown :=
    page st ++ found_page parties ++ [Header "🔍 Results"] ++
    results_page results ++ [Header "📊 Satisfaction Score Comparison"] in
  let fig := score_figure (valid_scores scores) in
  report chat_completions_create matplotlib_layout parties country st =
  match valid_scores scores with
  | [] =>
      (Return (),
       State (world st2)
         (shown ++ [Warning "No valid scores found to visualize."]))
  | _ :: _ =>
      match matplotlib_layout fig (world st2) with
      | (Return _, w) => (Return (), State w (shown ++ [Pyplot fig]))
      | (Raise e, w) => (Raise e, State w shown)
      end
  end.
Proof.
  intros Hrun shown fig. rewrite report_run, Hrun, show_scores_run.
  apply evaluate_loop_frame in Hrun. destruct st2 as [w2 p2].
  cbn [page world] in *. subst p2. cbv zeta.
  replace (((page st ++ found_page parties) ++
            [Header "🔍 Results"] ++ results_page results) ++
           [Header "📊 Satisfaction Score Comparison"]) with shown
    by (unfold shown; by rewrite <- !(assoc_L app)).
  done.
Qed.

End PageMore.

Lemma report_stops_at_failure_example :
  report (scripted_chat [Raise (ServiceError "rate limit")]) laid_out
    ["Green Party"] "Canada" (State 0%nat [])
  = (Raise (ServiceError "rate limit"),
     State 1%nat ([] ++ found_page ["Green Party"])).
Proof.
  apply (report_stops_at_failure
           (scripted_chat [Raise (ServiceError "rate limit")]) laid_out
           ["Green Party"] "Canada" (State 0%nat [])
           (State 1%nat (found_page ["Green Party"]))).
  reflexivity.
Defined.

(** Three runs: a reply without a number, a reply with a score and a chart
    that is laid out, and the same reply with a matplotlib that raises. *)
Lemma report_layout_example :
  report (scripted_chat [Return [Some "No number."]]) laid_out
    ["Green Party"] "Canada" (State 0%nat [])
  = (Return (),
     State 1%nat
       (([] ++ found_page ["Green Party"] ++ [Header "🔍 Results"] ++
         results_page [("Green Party", "No number.")] ++
         [Header "📊 Satisfaction Score Comparison"]) ++
        [Warning "No valid scores found to visualize."])) ∧
  report (scripted_chat [Return [Some "Score: 12"]]) laid_out
    ["Green Party"] "Canada" (State 0%nat [])
  = (Return (),
     State 1%nat
       (([] ++ found_page ["Green Party"] ++ [Header "🔍 Results"] ++
         results_page [("Green Party", "Score: 12")] ++
         [Header "📊 Satisfaction Score Comparison"]) ++
        [Pyplot (score_figure [("Green Party", 12)])])) ∧
  report (scripted_chat [Return [Some "Score: 12"]]) bad_mathtext
    ["Green Party"] "Canada" (State 0%nat [])
  = (Raise (ValueError "ParseFatalException"),
     State 1%nat
       ([] ++ found_page ["Green Party"] ++ [Header "🔍 Results"] ++
        results_page [("Green Party", "Score: 12")] ++
        [Header "📊 Satisfaction Score Comparison"])).
Proof.
  split; [|split].
  - apply (report_layout (scripted_chat [Return [Some "No number."]]) laid_out
             ["Green Party"] "Canada" (State 0%nat [])
             (State 1%nat (found_page ["Green Party"]))
             [("Green Party", "No number.")] [("Green Party", None)]).
    reflexivity.
  - apply (report_layout (scripted_chat [Return [Some "Score: 12"]]) laid_out
             ["Green Party"] "Canada" (State 0%nat [])
             (State 1%nat (found_page ["Green Party"]))
             [("Green Party", "Score: 12")] [("Green Party", Some 12)]).
    reflexivity.
  - apply (report_layout (scripted_chat [Return [Some "Score: 12"]]) bad_mathtext
             ["Green Party"] "Canada" (State 0%nat [])
             (State 1%nat (found_page ["Green Party"]))
             [("Green Party", "Score: 12")] [("Green Party", Some 12)]).
    reflexivity.
Defined.

(** ** The lister: the address and the names *)

Lemma chars_app (a b : string) : chars (a +:+ b) = chars a ++ chars b.
Proof. induction a as [|c a IH]; [done|]. simpl. by rewrite <- IH. Qed.

(** X13: the address requested holds no blank, whatever the name typed: the
    blanks of the name, or of its entry in the table, are all turned into
    underscores. *)
Theorem url_has_no_blank (country : string) :
  " "%char ∉ chars (wiki_url country).
Proof.
  unfold wiki_url, replace. rewrite chars_app, chars_str.
  intros [Hin|Hin]%elem_of_app.
  - revert Hin. apply (bool_decide_unpack _). vm_compute. exact I.
  - apply list_elem_of_fmap in Hin as (c & Hc & _).
    by case_bool_decide.
Qed.

Section ListerMore.

Context {W : Type}.
Variable requests_get : string → W → result response * W.
Variable BeautifulSoup : string → list node.

(** X14: a name the lister returns is never empty and always holds "party",
    in some case: it is the title of an anchor of the page that was
    fetched, below a list item of an unordered list.  The lister makes the
    one request and shows nothing. *)
Theorem listed_names_are_party_titles country (st st' : state W) titles title :
  scrape_party_info requests_get BeautifulSoup country st = (Return titles, st') →
  title ∈ titles →
  title ≠ "" ∧ occurs "party" (chars title) ∧
  ∃ r ancestors n,
    requests_get (wiki_url country) (world st) = (Return r, world st') ∧
    page st' = page st ∧
    (ancestors, n) ∈ elements (BeautifulSoup (content r)) ∧
    qualifies ancestors n title.
Proof.
  rewrite scrape_party_info_run.
  destruct (requests_get _ _) as [[r|e] w] eqn:Hget; [|done].
  intros [= <- <-] Hin%subseteq_take.
  rewrite party_names_kept in Hin.
  apply list_elem_of_omap in Hin as ([anc n] & Hin & Hq%kept_title_spec).
  pose proof Hq as (_ & _ & _ & Hocc).
  split_and!; [|done|by exists r, anc, n].
  intros ->. destruct Hocc as (pre & t & post & H & Ht%(f_equal length)).
  by destruct pre, t.
Qed.

End ListerMore.

Lemma listed_names_are_party_titles_example :
  "Pirate Party" ≠ "" ∧ occurs "party" (chars "Pirate Party") ∧
  ∃ r ancestors n,
    serve 200 sample_markup (wiki_url "Canada") 0%nat = (Return r, 0%nat) ∧
    page (State 0%nat []) = page (State 0%nat []) ∧
    (ancestors, n) ∈ elements (sample_parser (content r)) ∧
    qualifies ancestors n "Pirate Party".
Proof.
  apply (listed_names_are_party_titles (serve 200 sample_markup) sample_parser
           "Canada" (State 0%nat []) (State 0%nat []) ["Pirate Party"]).
  - reflexivity.
  - by left.
Defined.

(** ** Module initialisation: what it depends on *)

(** X15: the outcome of the initialisation depends on the secrets store
    alone: neither the environment variables nor what the module does after
    line 16 play a part.  It stops with the eight imported names bound and,
    when the secret was found, [OPENAI_API_KEY] bound to its value. *)
Theorem init_outcome (builtins : gset string) (env : Init.environment)
    (rest : Init.I unit) :
  "os" ∉ builtins →
  Init.run builtins env rest =
  match Init.secrets env !! "OPENAI_API_KEY" with
  | Some key =>
      (Raise (NameError "os"),
       <["OPENAI_API_KEY" := Init.Str key]> imported_names)
  | None => (Raise (KeyError "OPENAI_API_KEY"), imported_names)
  end.
Proof.
  intros Hos. unfold Init.run, Init.module_body.
  repeat (rewrite bind_import_as || rewrite bind_from_import).
  rewrite (bind_load_global builtins "st" (Init.Module "streamlit"))
    by (by vm_compute).
  rewrite bind_secrets_getitem.
  destruct (Init.secrets env !! "OPENAI_API_KEY") as [key|]; [|done].
  by rewrite bind_store, bind_load_missing by (done || by vm_compute).
Qed.

Lemma init_outcome_example :
  Init.run {[ "print"; "len" ]}
    (Init.Environment {[ "OPENAI_API_KEY" := "sk-secret" ]}
                      {[ "OPENAI_API_KEY" := "sk-env" ]})
    (Init.store "client" (Init.Client (Init.Str "sk-other")))
  = (Raise (NameError "os"),
     <["OPENAI_API_KEY" := Init.Str "sk-secret"]> imported_names).
Proof.
  rewrite (init_outcome {[ "print"; "len" ]}
             (Init.Environment {[ "OPENAI_API_KEY" := "sk-secret" ]}
                               {[ "OPENAI_API_KEY" := "sk-env" ]})
             (Init.store "client" (Init.Client (Init.Str "sk-other")))).
  - reflexivity.
  - apply (bool_decide_unpack _). vm_compute. exact I.
Defined.

(** ** No party found *)

(** X16: with no party found the action still completes, and asks nothing of
    the generation service: the page announces zero parties, shows the empty
    list and the two headers with nothing between them, and the warning in
    place of the chart. *)
Theorem no_party_found {W : Type}
    (chat_completions_create :
       string → list (string * string) → W → result (list (option string)) * W)
    (matplotlib_layout : figure → W → result unit * W)
    (country : string) (st : state W) :
  evaluate_parties chat_completions_create [] country st
  = (Return (Dict.empty, Dict.empty), st) ∧
  report chat_completions_create matplotlib_layout [] country st
  = (Return (),
     State (world st)
       (page st ++
        [Success "Found 0 political parties.";
         Write [];
         Spinner "Evaluating each party using AI...";
         Header "🔍 Results";
         Header "📊 Satisfaction Score Comparison";
         Warning "No valid scores found to visualize."])).
Proof.
  split; [reflexivity|]. rewrite report_run. simpl.
  rewrite show_scores_run. simpl. by rewrite <- !(assoc_L app).
Qed.
